(** * gno-flow: the export script and the Transfer handler, embedded in Rocq

    Shallow embedding of [scripts/export-summary.ts] (decimal codec, windowed
    flow aggregation, ranking, top-holder merge, balance enrichment, the
    summary composer with its store queries) and of [src/EventHandlers.ts]
    (the Transfer handler that maintains the Account ledger).

    Conventions.
    - A JS [bigint] and an integral JS [number] are [Z].
    - A JS string is a [string]; addresses and chain names are ASCII.
    - A JS [Map] is an association list in insertion order ([JSMap]); a JS
      [Set] of strings is a duplicate-free list in insertion order.
    - The entity tables of the indexer are [gmap]s keyed by entity id.
    - [value] and [balance] fields of rows carry the integer that
      [BigInt(row.value)] yields. *)

From stdpp Require Import base gmap strings.
From Stdlib Require Import ZArith List Ascii Bool Lia Permutation Sorted.
Import ListNotations.

Local Open Scope Z_scope.

(** ** Strings *)

Module Str.

(** [String.prototype.toLowerCase] on ASCII text. *)
Definition lowerChar (c : ascii) : ascii :=
  let n := nat_of_ascii c in
  if ((65 <=? n) && (n <=? 90))%nat then ascii_of_nat (n + 32) else c.

Fixpoint toLowerCase (s : string) : string :=
  match s with
  | EmptyString => EmptyString
  | String c r => String (lowerChar c) (toLowerCase r)
  end.

(** JS truthiness of a string: the empty string is the only falsy one. *)
Definition truthy (s : string) : bool :=
  match s with EmptyString => false | String _ _ => true end.

Definition zeroChar : ascii := "0"%char.

Fixpoint zeros (k : nat) : string :=
  match k with
  | O => EmptyString
  | S k' => String zeroChar (zeros k')
  end.

(** [s.padStart(target, "0")]. *)
Definition padStart (target : nat) (s : string) : string :=
  zeros (target - String.length s) +:+ s.

(** [s.replace(/0+$/, "")]: the maximal run of zeros that ends the string is
    removed. *)
Fixpoint stripTrailingZeros (s : string) : string :=
  match s with
  | EmptyString => EmptyString
  | String c r =>
      match stripTrailingZeros r with
      | EmptyString => if Ascii.eqb c zeroChar then EmptyString else String c EmptyString
      | r' => String c r'
      end
  end.

Definition digitChar (d : Z) : ascii := ascii_of_nat (48 + Z.to_nat d).

Definition digitVal (c : ascii) : Z := Z.of_nat (nat_of_ascii c) - 48.

Definition isDigit (c : ascii) : bool :=
  let n := nat_of_ascii c in ((48 <=? n) && (n <=? 57))%nat.

Fixpoint allDigits (s : string) : bool :=
  match s with
  | EmptyString => true
  | String c r => isDigit c && allDigits r
  end.

(** The number a digit string denotes (most significant digit first). *)
Fixpoint digitsValueAcc (acc : Z) (s : string) : Z :=
  match s with
  | EmptyString => acc
  | String c r => digitsValueAcc (10 * acc + digitVal c) r
  end.

Definition digitsValue (s : string) : Z := digitsValueAcc 0 s.

Fixpoint lastChar (s : string) : option ascii :=
  match s with
  | EmptyString => None
  | String c EmptyString => Some c
  | String _ r => lastChar r
  end.

Definition firstChar (s : string) : option ascii :=
  match s with
  | EmptyString => None
  | String c _ => Some c
  end.

(** Decimal digits of a non-negative integer, least significant produced
    first and pushed in front of [acc]. *)
Fixpoint natDigits (fuel : nat) (n : Z) (acc : string) : string :=
  match fuel with
  | O => acc
  | S f =>
      let acc' := String (digitChar (n mod 10)) acc in
      if n / 10 =? 0 then acc' else natDigits f (n / 10) acc'
  end.

Definition digitFuel (n : Z) : nat := S (Z.to_nat (Z.log2 n)).

(** [BigInt.prototype.toString()], and [Number.prototype.toString()] on an
    integral number: decimal, no padding, ["-"] in front of a negative. *)
Definition toString (n : Z) : string :=
  if n <? 0 then String "-"%char (natDigits (digitFuel (- n)) (- n) EmptyString)
  else natDigits (digitFuel n) n EmptyString.

End Str.

(** ** Decimal codec *)

Definition DECIMALS : Z := 18.
Definition DECIMALS_DIVISOR : Z := 10 ^ DECIMALS.

(** [bigint] division truncates and [%] takes the sign of the dividend:
    [Z.quot] and [Z.rem]. *)
Definition bigintToDecimalString (raw : Z) : string :=
  let negative := raw <? 0 in
  let abs := if negative then - raw else raw in
  let whole := Z.quot abs DECIMALS_DIVISOR in
  let frac := Z.rem abs DECIMALS_DIVISOR in
  let prefix := if negative then "-" else "" in
  if frac =? 0 then prefix +:+ Str.toString whole
  else
    let fracStr := Str.stripTrailingZeros (Str.padStart 18 (Str.toString frac)) in
    prefix +:+ Str.toString whole +:+ "." +:+ fracStr.


(** ** Containers of the script *)

(** A JS [Map] keyed by strings: entries in insertion order; [set] on a key
    that is present keeps its position. *)
Abbreviation JSMap V := (list (string * V)).

Module JSMap.
Section Ops.
Context {V : Type}.

Fixpoint get (m : JSMap V) (k : string) : option V :=
  match m with
  | [] => None
  | (k', v) :: r => if String.eqb k' k then Some v else get r k
  end.

Fixpoint set (m : JSMap V) (k : string) (v : V) : JSMap V :=
  match m with
  | [] => [(k, v)]
  | (k', v') :: r =>
      if String.eqb k' k then (k', v) :: r else (k', v') :: set r k v
  end.

Definition keys (m : JSMap V) : list string := map fst m.
End Ops.
End JSMap.

(** A JS [Set] of strings: members in insertion order, no duplicates. *)
Module JSSet.
Definition has (s : list string) (x : string) : bool :=
  existsb (String.eqb x) s.
Definition add (s : list string) (x : string) : list string :=
  if has s x then s else s ++ [x].
End JSSet.

(** [Array.prototype.sort(cmp)]: stable, [a] stays in front of [b] when
    [cmp a b <= 0]. Insertion from the right end keeps equal elements in
    their input order. *)
Section Sort.
Context {A : Type} (cmp : A -> A -> Z).

Fixpoint insertBy (x : A) (l : list A) : list A :=
  match l with
  | [] => [x]
  | y :: r => if cmp x y <=? 0 then x :: y :: r else y :: insertBy x r
  end.

Definition sortBy (l : list A) : list A := fold_right insertBy [] l.
End Sort.

(** The default comparator of [sort()] on strings: code-unit order. *)
Definition cmpString (a b : string) : Z :=
  match String.compare a b with
  | Lt => -1
  | Eq => 0
  | Gt => 1
  end.

Definition sortStrings (l : list string) : list string := sortBy cmpString l.

(** ** Rows read from the store *)

Module TransferRow.
Record t := mk {
  chainId : Z;
  blockTimestamp : Z;
  from : string;
  to : string;
  value : Z
}.
End TransferRow.

Module AccountRow.
Record t := mk {
  address : string;
  chainId : Z;
  balance : Z;
  transferCount : Z
}.
End AccountRow.

Definition TOP_N : nat := 50.
Definition ZERO : string := "0x0000000000000000000000000000000000000000".

(** [CHAIN_NAMES[chainId]]: [None] is [undefined]. *)
Definition CHAIN_NAMES (chainId : Z) : option string :=
  if chainId =? 1 then Some "ethereum"
  else if chainId =? 100 then Some "gnosis"
  else None.

(** [e || fallback] on a possibly-undefined string. *)
Definition orString (e : option string) (fallback : string) : string :=
  match e with
  | Some s => if Str.truthy s then s else fallback
  | None => fallback
  end.

(** [CHAIN_NAMES[chainId] || `chain_${chainId}`]. *)
Definition chainName (chainId : Z) : string :=
  orString (CHAIN_NAMES chainId) ("chain_" +:+ Str.toString chainId).

(** ** Windowed flow aggregation *)

Module FlowEntry.
Record t := mk {
  inflow : Z;
  outflow : Z;
  count : Z;
  chains : list string
}.
Definition fresh : t := mk 0 0 0 [].
Definition net (e : t) : Z := inflow e - outflow e.
End FlowEntry.

(** The sender branch of the loop body: [flows.get(a) || fresh], three
    updates of the entry, [flows.set(a, entry)]. *)
Definition debit (flows : JSMap FlowEntry.t) (addr : string) (value : Z)
    (chain : string) : JSMap FlowEntry.t :=
  let entry := default FlowEntry.fresh (JSMap.get flows addr) in
  JSMap.set flows addr
    (FlowEntry.mk (FlowEntry.inflow entry)
                  (FlowEntry.outflow entry + value)
                  (FlowEntry.count entry + 1)
                  (JSSet.add (FlowEntry.chains entry) chain)).

(** The receiver branch. *)
Definition credit (flows : JSMap FlowEntry.t) (addr : string) (value : Z)
    (chain : string) : JSMap FlowEntry.t :=
  let entry := default FlowEntry.fresh (JSMap.get flows addr) in
  JSMap.set flows addr
    (FlowEntry.mk (FlowEntry.inflow entry + value)
                  (FlowEntry.outflow entry)
                  (FlowEntry.count entry + 1)
                  (JSSet.add (FlowEntry.chains entry) chain)).

(** [a && a !== ZERO]. *)
Definition tracked (addr : string) : bool :=
  Str.truthy addr && negb (String.eqb addr ZERO).

(** One pass of the inner loop: one window, one transfer. *)
Definition windowStep (cutoff : Z) (flows : JSMap FlowEntry.t)
    (t : TransferRow.t) : JSMap FlowEntry.t :=
  let chain := chainName (TransferRow.chainId t) in
  let value := TransferRow.value t in
  let fromAddr := Str.toLowerCase (TransferRow.from t) in
  let toAddr := Str.toLowerCase (TransferRow.to t) in
  if TransferRow.blockTimestamp t <? cutoff then flows
  else
    let flows1 := if tracked fromAddr then debit flows fromAddr value chain else flows in
    if tracked toAddr then credit flows1 toAddr value chain else flows1.

Record Windows := mkWindows {
  flows30d : JSMap FlowEntry.t;
  flows7d : JSMap FlowEntry.t
}.

Definition cutoff7d (now : Z) : Z := now - 7 * 86400.
Definition cutoff30d (now : Z) : Z := now - 30 * 86400.

(** The body of [for (const t of allTransfers)]: the 30-day map first, then
    the 7-day map. *)
Definition transferStep (now : Z) (w : Windows) (t : TransferRow.t) : Windows :=
  let w1 := mkWindows (windowStep (cutoff30d now) (flows30d w) t) (flows7d w) in
  mkWindows (flows30d w1) (windowStep (cutoff7d now) (flows7d w1) t).

Definition computeFlows (now : Z) (allTransfers : list TransferRow.t) : Windows :=
  fold_left (transferStep now) allTransfers (mkWindows [] []).

(** ** Ranking *)

Module FlowRow.
Record t := mk {
  address : string;
  inflow : string;
  outflow : string;
  net_flow : string;
  transfer_count : Z;
  chains : list string
}.
End FlowRow.

Definition absNet (e : FlowEntry.t) : Z :=
  let n := FlowEntry.net e in if n <? 0 then - n else n.

(** The comparator of [buildTop]. *)
Definition cmpFlow (a b : string * FlowEntry.t) : Z :=
  let absA := absNet (snd a) in
  let absB := absNet (snd b) in
  if absB >? absA then 1 else if absB <? absA then -1 else 0.

Definition flowRow (p : string * FlowEntry.t) : FlowRow.t :=
  let (address, entry) := p in
  FlowRow.mk address
    (bigintToDecimalString (FlowEntry.inflow entry))
    (bigintToDecimalString (FlowEntry.outflow entry))
    (bigintToDecimalString (FlowEntry.inflow entry - FlowEntry.outflow entry))
    (FlowEntry.count entry)
    (sortStrings (FlowEntry.chains entry)).

(** [[...flows.entries()].sort(..).slice(0, TOP_N)]. *)
Definition topFlows (flows : JSMap FlowEntry.t) : list (string * FlowEntry.t) :=
  firstn TOP_N (sortBy cmpFlow flows).

Definition buildTop (flows : JSMap FlowEntry.t) : list FlowRow.t :=
  map flowRow (topFlows flows).

(** ** Top holders *)

Module HolderEntry.
Record t := mk {
  balance : Z;
  transferCount : Z;
  chains : list string
}.
End HolderEntry.

Module HolderRow.
Record t := mk {
  address : string;
  balance : string;
  transfer_count : Z;
  chains : list string
}.
End HolderRow.

(** The body of [for (const acct of accounts)] in [fetchTopHolders]. *)
Definition mergeHolder (holderMap : JSMap HolderEntry.t) (acct : AccountRow.t)
    : JSMap HolderEntry.t :=
  let addr := Str.toLowerCase (AccountRow.address acct) in
  let chain := chainName (AccountRow.chainId acct) in
  match JSMap.get holderMap addr with
  | Some existing =>
      JSMap.set holderMap addr
        (HolderEntry.mk (HolderEntry.balance existing + AccountRow.balance acct)
                        (HolderEntry.transferCount existing + AccountRow.transferCount acct)
                        (JSSet.add (HolderEntry.chains existing) chain))
  | None =>
      JSMap.set holderMap addr
        (HolderEntry.mk (AccountRow.balance acct)
                        (AccountRow.transferCount acct)
                        [chain])
  end.

Definition mergeHolderPage (holderMap : JSMap HolderEntry.t)
    (accounts : list AccountRow.t) : JSMap HolderEntry.t :=
  fold_left mergeHolder accounts holderMap.

(** The merge loop run over a given sequence of pages. *)
Definition mergeHolderPages (pages : list (list AccountRow.t))
    : JSMap HolderEntry.t :=
  fold_left mergeHolderPage pages [].

Definition cmpHolder (a b : string * HolderEntry.t) : Z :=
  if HolderEntry.balance (snd b) >? HolderEntry.balance (snd a) then 1
  else if HolderEntry.balance (snd b) <? HolderEntry.balance (snd a) then -1
  else 0.

Definition holderRow (p : string * HolderEntry.t) : HolderRow.t :=
  let (address, entry) := p in
  HolderRow.mk address
    (bigintToDecimalString (HolderEntry.balance entry))
    (HolderEntry.transferCount entry)
    (sortStrings (HolderEntry.chains entry)).

(** The [return] of [fetchTopHolders]. *)
Definition rankHolders (holderMap : JSMap HolderEntry.t) : list HolderRow.t :=
  map holderRow (firstn TOP_N (sortBy cmpHolder holderMap)).

(** ** Balance enrichment *)

(** The body of [for (const acct of accounts)] in [fetchBalances]. *)
Definition mergeBalance (balanceMap : JSMap Z) (acct : AccountRow.t) : JSMap Z :=
  let addr := Str.toLowerCase (AccountRow.address acct) in
  let prev := default 0 (JSMap.get balanceMap addr) in
  JSMap.set balanceMap addr (prev + AccountRow.balance acct).

Definition mergeBalancePage (balanceMap : JSMap Z) (accounts : list AccountRow.t)
    : JSMap Z :=
  fold_left mergeBalance accounts balanceMap.

Module SummaryRow.
Record t := mk {
  address : string;
  inflow : string;
  outflow : string;
  net_flow : string;
  transfer_count : Z;
  chains : list string;
  balance : string
}.
End SummaryRow.

(** [balances.get(r.address) || 0n]: an absent key and a zero both give 0n. *)
Definition balanceOrZero (balances : JSMap Z) (address : string) : Z :=
  match JSMap.get balances address with
  | Some b => if b =? 0 then 0 else b
  | None => 0
  end.

Definition addBalances (balances : JSMap Z) (rows : list FlowRow.t)
    : list SummaryRow.t :=
  map (fun r =>
         SummaryRow.mk (FlowRow.address r) (FlowRow.inflow r) (FlowRow.outflow r)
           (FlowRow.net_flow r) (FlowRow.transfer_count r) (FlowRow.chains r)
           (bigintToDecimalString (balanceOrZero balances (FlowRow.address r))))
      rows.

(** ** The store, seen from the script

    The store is an external collaborator. What the script relies on: each
    query has a finite, fixed result set for the length of a run, and
    [limit]/[offset] cut a window out of it. A request may also fail. *)

Module Store.
Record t := mk {
  (** [Transfer(where: {blockTimestamp: {_gte: cutoff}}, order_by: ...)] *)
  transfersSince : Z -> list TransferRow.t;
  (** [Transfer_aggregate { aggregate { count } }] *)
  transferCount : Z;
  (** [Account(where: {address: {_in: addresses}})] *)
  accountsIn : list string -> list AccountRow.t;
  (** [Account(where: {balance: {_gt: "0"}}, order_by: {balance: desc})] *)
  positiveAccounts : list AccountRow.t
}.
End Store.

Inductive Query : Type -> Type :=
| RecentTransfers (cutoff limit offset : Z) : Query (list TransferRow.t)
| TotalCount : Query Z
| AccountBalances (addresses : list string) : Query (list AccountRow.t)
| TopAccounts (limit offset : Z) : Query (list AccountRow.t).

(** [limit]/[offset] of the store. *)
Definition page {A : Type} (limit offset : Z) (rows : list A) : list A :=
  firstn (Z.to_nat limit) (skipn (Z.to_nat offset) rows).

Definition answer (s : Store.t) {D : Type} (q : Query D) : D :=
  match q in Query D' return D' with
  | RecentTransfers cutoff limit offset => page limit offset (Store.transfersSince s cutoff)
  | TotalCount => Store.transferCount s
  | AccountBalances addresses => Store.accountsIn s addresses
  | TopAccounts limit offset => page limit offset (Store.positiveAccounts s)
  end.

(** What can go wrong with one request. *)
Inductive Fault :=
| NetworkFailure            (* [fetch] rejects *)
| HttpStatus (status : Z)   (* a response with [resp.ok] false *)
| GraphQLErrors.            (* a response whose body has [errors] *)

Module Response.
Record t (D : Type) := mk {
  ok : bool;
  status : Z;
  errors : bool;          (* truthiness of [json.errors] *)
  data : option D
}.
Arguments mk {D}.
Arguments ok {D}.
Arguments status {D}.
Arguments errors {D}.
Arguments data {D}.
End Response.

Module Summary.
Record t := mk {
  top_7d : list SummaryRow.t;
  top_30d : list SummaryRow.t;
  top_holders : list HolderRow.t;
  labels : JSMap string;
  synced_at : string;
  total_transfers : Z
}.
End Summary.

(** The world a run sees and changes. [faults n] is what goes wrong with
    the [n]-th request of the run, if anything; [requests] counts the
    requests issued so far; [labelsFile] is [None] when [labels.json] is
    missing, unreadable or not a JSON object; [document] is the content of
    [docs/summary.json], [None] before the first export. *)
Record World := mkWorld {
  store : Store.t;
  faults : nat -> option Fault;
  requests : nat;
  dateNow : Z;
  isoString : string;
  labelsFile : option (list (string * string));
  document : option Summary.t
}.

(** ** The monad of the script: state, exceptions, and running out of fuel
    in a [while (true)] loop. *)

Inductive Outcome (A : Type) :=
| Ok (a : A)
| Throw (err : string)
| OutOfFuel.
Arguments Ok {A}.
Arguments Throw {A}.
Arguments OutOfFuel {A}.

Definition M (A : Type) : Type := World -> Outcome A * World.

Definition ret {A : Type} (a : A) : M A := fun w => (Ok a, w).
Definition throw {A : Type} (err : string) : M A := fun w => (Throw err, w).
Definition outOfFuel {A : Type} : M A := fun w => (OutOfFuel, w).
Definition bind {A B : Type} (m : M A) (k : A -> M B) : M B :=
  fun w =>
    match m w with
    | (Ok a, w') => k a w'
    | (Throw err, w') => (Throw err, w')
    | (OutOfFuel, w') => (OutOfFuel, w')
    end.

Notation "x <- m ;; k" := (bind m (fun x => k))
  (at level 100, m at next level, right associativity).

(** [fetch(GRAPHQL_URL, ...)] followed by [resp.json()]. *)
Definition fetch {D : Type} (q : Query D) : M (Response.t D) :=
  fun w =>
    let w' := mkWorld (store w) (faults w) (S (requests w)) (dateNow w)
                      (isoString w) (labelsFile w) (document w) in
    match faults w (requests w) with
    | Some NetworkFailure => (Throw "fetch failed", w')
    | Some (HttpStatus status) => (Ok (Response.mk false status false None), w')
    | Some GraphQLErrors => (Ok (Response.mk true 200 true None), w')
    | None => (Ok (Response.mk true 200 false (Some (answer (store w) q))), w')
    end.

Definition graphqlQuery {D : Type} (q : Query D) : M D :=
  resp <- fetch q ;;
  if negb (Response.ok resp) then
    throw ("GraphQL error: " +:+ Str.toString (Response.status resp))
  else if Response.errors resp then throw "GraphQL errors"
  else
    match Response.data resp with
    | Some d => ret d
    | None => throw "TypeError"   (* [json.data!] was undefined *)
    end.

(** [addresses.slice(i, j)]. *)
Definition slice {A : Type} (i j : Z) (l : list A) : list A :=
  firstn (Z.to_nat (j - i)) (skipn (Z.to_nat i) l).

(** The [for] loop of [fetchBalances], from index [i] on. *)
Fixpoint fetchBalancesFrom (fuel : nat) (addresses : list string) (i : Z)
    (balanceMap : JSMap Z) : M (JSMap Z) :=
  match fuel with
  | O => outOfFuel
  | S fuel' =>
      let batchSize := 500 in
      if i <? Z.of_nat (length addresses) then
        let batch := slice i (i + batchSize) addresses in
        accounts <- graphqlQuery (AccountBalances batch) ;;
        fetchBalancesFrom fuel' addresses (i + batchSize)
          (mergeBalancePage balanceMap accounts)
      else ret balanceMap
  end.

Definition fetchBalances (fuel : nat) (addresses : list string) : M (JSMap Z) :=
  fetchBalancesFrom fuel addresses 0 [].

(** The [while (true)] loop of [fetchTopHolders], from [offset] on. *)
Fixpoint fetchHolderPages (fuel : nat) (limit offset : Z)
    (holderMap : JSMap HolderEntry.t) : M (JSMap HolderEntry.t) :=
  match fuel with
  | O => outOfFuel
  | S fuel' =>
      accounts <- graphqlQuery (TopAccounts limit offset) ;;
      let holderMap' := mergeHolderPage holderMap accounts in
      if Z.of_nat (length accounts) <? limit then ret holderMap'
      else fetchHolderPages fuel' limit (offset + limit) holderMap'
  end.

Definition fetchTopHolders (fuel : nat) : M (list HolderRow.t) :=
  holderMap <- fetchHolderPages fuel 5000 0 [] ;;
  ret (rankHolders holderMap).

(** The first [while (true)] loop of [main]. *)
Fixpoint fetchTransfers (fuel : nat) (cutoff limit offset : Z)
    (allTransfers : list TransferRow.t) : M (list TransferRow.t) :=
  match fuel with
  | O => outOfFuel
  | S fuel' =>
      batch <- graphqlQuery (RecentTransfers cutoff limit offset) ;;
      let allTransfers' := allTransfers ++ batch in
      if Z.of_nat (length batch) <? limit then ret allTransfers'
      else fetchTransfers fuel' cutoff limit (offset + limit) allTransfers'
  end.

(** [Math.floor(Date.now() / 1000)]. *)
Definition nowSeconds : M Z := fun w => (Ok (dateNow w / 1000), w).

(** [new Date().toISOString()]. *)
Definition toISOString : M string := fun w => (Ok (isoString w), w).

(** [Object.fromEntries(Object.entries(raw).map(([k, v]) => [k.toLowerCase(), v]))],
    and the empty object when reading or parsing threw. *)
Definition labelsOf (file : option (list (string * string))) : JSMap string :=
  match file with
  | Some raw =>
      fold_left (fun o kv => JSMap.set o (Str.toLowerCase (fst kv)) (snd kv)) raw []
  | None => []
  end.

(** The [try { ... } catch { }] around the label file. *)
Definition loadLabels : M (JSMap string) :=
  fun w => (Ok (labelsOf (labelsFile w)), w).

(** [fs.writeFileSync(OUTPUT_PATH, ...)], the output directory being there. *)
Definition writeSummary (summary : Summary.t) : M unit :=
  fun w =>
    (Ok tt, mkWorld (store w) (faults w) (requests w) (dateNow w)
                    (isoString w) (labelsFile w) (Some summary)).

(** [allAddresses]: the addresses of both rankings, first seen first. *)
Definition rankedAddresses (top7d top30d : list FlowRow.t) : list string :=
  fold_left (fun s r => JSSet.add s (FlowRow.address r)) top30d
    (fold_left (fun s r => JSSet.add s (FlowRow.address r)) top7d []).

(** [main] up to and including [const summary = { ... }]. *)
Definition composeSummary (fuel : nat) : M Summary.t :=
  now <- nowSeconds ;;
  allTransfers <- fetchTransfers fuel (cutoff30d now) 10000 0 [] ;;
  totalTransfers <- graphqlQuery TotalCount ;;
  let flows := computeFlows now allTransfers in
  let top7d := buildTop (flows7d flows) in
  let top30d := buildTop (flows30d flows) in
  let allAddresses := rankedAddresses top7d top30d in
  balances <- fetchBalances fuel allAddresses ;;
  topHolders <- fetchTopHolders fuel ;;
  labels <- loadLabels ;;
  synced_at <- toISOString ;;
  ret (Summary.mk (addBalances balances top7d) (addBalances balances top30d)
                  topHolders labels synced_at totalTransfers).

(** [main]: the summary is composed, then written in one call. The
    [console.log] lines are left out. *)
Definition main (fuel : nat) : M unit :=
  summary <- composeSummary fuel ;;
  writeSummary summary.

(** [main().catch(err => { console.error(err); process.exit(1); })]: the
    exit code and the world the run leaves, or [None] while [fuel] is too
    small for its loops. *)
Definition run (fuel : nat) (w : World) : option (Z * World) :=
  match main fuel w with
  | (Ok _, w') => Some (0, w')
  | (Throw _, w') => Some (1, w')
  | (OutOfFuel, _) => None
  end.

(** ** The Transfer handler of the indexer *)

Module Indexer.

Module Event.
Record t := mk {
  chainId : Z;
  block_number : Z;
  block_timestamp : Z;
  transaction_hash : string;
  logIndex : Z;
  params_from : string;
  params_to : string;
  params_value : Z
}.
End Event.

Module Transfer.
Record t := mk {
  id : string;
  chainId : Z;
  blockNumber : Z;
  blockTimestamp : Z;
  transactionHash : string;
  logIndex : Z;
  from : string;
  to : string;
  value : Z
}.
End Transfer.

Module Account.
Record t := mk {
  id : string;
  chainId : Z;
  address : string;
  balance : Z;
  transferCount : Z;
  lastUpdatedBlock : Z;
  lastUpdatedTimestamp : Z
}.
End Account.

(** The two entity tables behind [context]. *)
Record Context := mkContext {
  transfers : gmap string Transfer.t;
  accounts : gmap string Account.t
}.

Definition ZERO_ADDRESS : string := "0x0000000000000000000000000000000000000000".

(** [`${chainId}_${addr}`] *)
Definition accountId (chainId : Z) (addr : string) : string :=
  Str.toString chainId +:+ "_" +:+ addr.

(** The sender side: read the row, write it back. *)
Definition debitAccount (event : Event.t) (fromAddr : string) (value : Z)
    (table : gmap string Account.t) : gmap string Account.t :=
  let fromId := accountId (Event.chainId event) fromAddr in
  let fromAccount := table !! fromId in
  <[ fromId := Account.mk fromId (Event.chainId event) fromAddr
                 (default 0 (Account.balance <$> fromAccount) - value)
                 (default 0 (Account.transferCount <$> fromAccount) + 1)
                 (Event.block_number event)
                 (Event.block_timestamp event) ]> table.

(** The receiver side. *)
Definition creditAccount (event : Event.t) (toAddr : string) (value : Z)
    (table : gmap string Account.t) : gmap string Account.t :=
  let toId := accountId (Event.chainId event) toAddr in
  let toAccount := table !! toId in
  <[ toId := Account.mk toId (Event.chainId event) toAddr
               (default 0 (Account.balance <$> toAccount) + value)
               (default 0 (Account.transferCount <$> toAccount) + 1)
               (Event.block_number event)
               (Event.block_timestamp event) ]> table.

Definition handler (context : Context) (event : Event.t) : Context :=
  let transferId :=
    Str.toString (Event.chainId event) +:+ "_" +:+
    Str.toString (Event.block_number event) +:+ "_" +:+
    Str.toString (Event.logIndex event) in
  let fromAddr := Str.toLowerCase (Event.params_from event) in
  let toAddr := Str.toLowerCase (Event.params_to event) in
  let value := Event.params_value event in
  let transfers' :=
    <[ transferId := Transfer.mk transferId (Event.chainId event)
                       (Event.block_number event) (Event.block_timestamp event)
                       (Event.transaction_hash event) (Event.logIndex event)
                       fromAddr toAddr value ]> (transfers context) in
  let accounts1 :=
    if negb (String.eqb fromAddr ZERO_ADDRESS)
    then debitAccount event fromAddr value (accounts context)
    else accounts context in
  let accounts2 :=
    if negb (String.eqb toAddr ZERO_ADDRESS)
    then creditAccount event toAddr value accounts1
    else accounts1 in
  mkContext transfers' accounts2.

(** The ledger after a log of events, starting from empty tables. *)
Definition index (events : list Event.t) : Context :=
  fold_left handler events (mkContext ∅ ∅).

(** Sum of all Account balances. *)
Definition totalBalance (table : gmap string Account.t) : Z :=
  map_fold (fun _ account acc => Account.balance account + acc) 0 table.

(** The row the store serves for an Account entity. *)
Definition accountRow (account : Account.t) : AccountRow.t :=
  AccountRow.mk (Account.address account) (Account.chainId account)
                (Account.balance account) (Account.transferCount account).

End Indexer.

(** ** Specification vocabulary *)

(** [s] is the minimal decimal rendering of the 18-digit fixed-point number
    [raw]: sign, unpadded integer digits [ip], and, only when there is a
    fraction, a dot and the fraction digits [fp] without trailing zeros. *)
Definition minimalDecimal (raw : Z) (s : string) : Prop :=
  exists ip fp : string,
    s = (if raw <? 0 then "-" else "") +:+ ip +:+
        (match fp with EmptyString => "" | _ => "." +:+ fp end)
    /\ Str.allDigits ip = true /\ ip <> ""
    /\ (Str.firstChar ip = Some Str.zeroChar -> ip = "0")
    /\ Str.digitsValue ip = Z.abs raw / 10 ^ 18
    /\ Str.allDigits fp = true
    /\ (String.length fp <= 18)%nat
    /\ Str.lastChar fp <> Some Str.zeroChar
    /\ Str.digitsValue fp * 10 ^ (18 - Z.of_nat (String.length fp))
       = Z.abs raw mod 10 ^ 18
    /\ (fp = "" <-> Z.abs raw mod 10 ^ 18 = 0).

(** What the digit loop produces. *)
Record digitsOf (n : Z) (s : string) : Prop := {
  digitsOf_all : Str.allDigits s = true;
  digitsOf_nonempty : s <> "";
  digitsOf_value : Str.digitsValue s = n;
  digitsOf_upper : n < 10 ^ Z.of_nat (String.length s);
  digitsOf_lower : 0 < n -> 10 ^ (Z.of_nat (String.length s) - 1) <= n;
  digitsOf_unpadded : Str.firstChar s = Some Str.zeroChar -> s = "0"
}.

(** What every entry of a flow map satisfies: its address passed the guard
    and at least one transfer was counted. *)
Definition flowEntryOk (p : string * FlowEntry.t) : Prop :=
  tracked (fst p) = true /\ 0 < FlowEntry.count (snd p).

(** The effect of a transfer from an address to itself on its entry. *)
Definition bothWays (value : Z) (before after : FlowEntry.t) : Prop :=
  FlowEntry.inflow after = FlowEntry.inflow before + value
  /\ FlowEntry.outflow after = FlowEntry.outflow before + value
  /\ FlowEntry.net after = FlowEntry.net before.






(** The balance the ledger holds for an address on a chain, zero when there
    is no row. *)
Definition ledgerBalance (context : Indexer.Context) (chainId : Z) (addr : string) : Z :=
  default 0 (Indexer.Account.balance <$>
             Indexer.accounts context !! Indexer.accountId chainId addr).


(** What every Account row of the ledger satisfies: a lowercase address
    other than the zero address. *)
Definition realAccount (_ : string) (account : Indexer.Account.t) : Prop :=
  Indexer.Account.address account <> Indexer.ZERO_ADDRESS
  /\ Str.toLowerCase (Indexer.Account.address account)
     = Indexer.Account.address account.

(** The rows of [pages] are rows of the ledger the handler built. *)
Definition servedFrom (context : Indexer.Context) (pages : list (list AccountRow.t)) : Prop :=
  forall row, In row (concat pages) ->
    exists id account,
      Indexer.accounts context !! id = Some account
      /\ row = Indexer.accountRow account.

(** ** Reasoning about runs *)

(** Nothing but the request counter moved between [w] and [w']. *)
Definition steady (w w' : World) : Prop :=
  store w' = store w /\ faults w' = faults w /\ dateNow w' = dateNow w
  /\ isoString w' = isoString w /\ labelsFile w' = labelsFile w
  /\ document w' = document w /\ (requests w <= requests w')%nat.

(** Every request issued between [w] and [w'] succeeded. *)
Definition quietBetween (w w' : World) : Prop :=
  forall i, (requests w <= i < requests w')%nat -> faults w i = None.

(** Some request issued between [w] and [w'] failed. *)
Definition faultBetween (w w' : World) : Prop :=
  exists i, (requests w <= i < requests w')%nat /\ faults w i <> None.

(** [m], run in [w], ends; it throws exactly when one of its requests
    failed, and otherwise returns a value that satisfies [Q]. *)
Definition yields {A : Type} (m : M A) (w : World) (Q : A -> Prop) : Prop :=
  let (o, w') := m w in
  steady w w'
  /\ match o with
     | Ok a => quietBetween w w' /\ Q a
     | Throw _ => faultBetween w w'
     | OutOfFuel => False
     end.

(** ** Vocabulary of the top-holder merge *)

(** What one row does to the entry of its address. *)
Definition absorb (existing : option HolderEntry.t) (acct : AccountRow.t) : HolderEntry.t :=
  let chain := chainName (AccountRow.chainId acct) in
  match existing with
  | Some e =>
      HolderEntry.mk (HolderEntry.balance e + AccountRow.balance acct)
                     (HolderEntry.transferCount e + AccountRow.transferCount acct)
                     (JSSet.add (HolderEntry.chains e) chain)
  | None =>
      HolderEntry.mk (AccountRow.balance acct) (AccountRow.transferCount acct) [chain]
  end.

(** The rows of address [a]. *)
Definition rowsOf (a : string) (rows : list AccountRow.t) : list AccountRow.t :=
  filter (fun r => String.eqb (Str.toLowerCase (AccountRow.address r)) a) rows.

Definition sumBalance (rows : list AccountRow.t) : Z :=
  fold_right (fun r s => AccountRow.balance r + s) 0 rows.

Definition sumCount (rows : list AccountRow.t) : Z :=
  fold_right (fun r s => AccountRow.transferCount r + s) 0 rows.

(** Two merged entries agree: same sums, same set of chain names. *)
Definition sameHolder (o1 o2 : option HolderEntry.t) : Prop :=
  match o1, o2 with
  | None, None => True
  | Some e1, Some e2 =>
      HolderEntry.balance e1 = HolderEntry.balance e2
      /\ HolderEntry.transferCount e1 = HolderEntry.transferCount e2
      /\ (forall c, In c (HolderEntry.chains e1) <-> In c (HolderEntry.chains e2))
  | _, _ => False
  end.

(** The entry of an address is the sum of its rows. *)
Definition sumsRows (rows : list AccountRow.t) (o : option HolderEntry.t) : Prop :=
  match rows, o with
  | [], None => True
  | _ :: _, Some e =>
      HolderEntry.balance e = sumBalance rows
      /\ HolderEntry.transferCount e = sumCount rows
      /\ (forall c, In c (HolderEntry.chains e) <->
                    exists r, In r rows /\ chainName (AccountRow.chainId r) = c)
  | _, _ => False
  end.

(** ** What a run is expected to write *)

(** The balance map [fetchBalances] builds when no request fails, from index
    [i] on, in at most [fuel] rounds. *)
Fixpoint balancesFrom (fuel : nat) (s : Store.t) (addresses : list string) (i : Z)
    (balanceMap : JSMap Z) : JSMap Z :=
  match fuel with
  | O => balanceMap
  | S fuel' =>
      if i <? Z.of_nat (length addresses) then
        balancesFrom fuel' s addresses (i + 500)
          (mergeBalancePage balanceMap
             (Store.accountsIn s (slice i (i + 500) addresses)))
      else balanceMap
  end.

(** The document of a run in which no request fails. *)
Definition expectedSummary (fuel : nat) (w : World) : Summary.t :=
  let now := dateNow w / 1000 in
  let allTransfers := Store.transfersSince (store w) (cutoff30d now) in
  let flows := computeFlows now allTransfers in
  let top7d := buildTop (flows7d flows) in
  let top30d := buildTop (flows30d flows) in
  let balances := balancesFrom fuel (store w) (rankedAddresses top7d top30d) 0 [] in
  Summary.mk (addBalances balances top7d) (addBalances balances top30d)
    (rankHolders (mergeHolderPage [] (Store.positiveAccounts (store w))))
    (labelsOf (labelsFile w)) (isoString w) (Store.transferCount (store w)).

(** Fuel that is enough for the three loops of a run in [w]. *)
Definition enoughFuel (w : World) : nat :=
  let now := dateNow w / 1000 in
  let allTransfers := Store.transfersSince (store w) (cutoff30d now) in
  let flows := computeFlows now allTransfers in
  S (length allTransfers
     + length (Store.positiveAccounts (store w))
     + length (rankedAddresses (buildTop (flows7d flows)) (buildTop (flows30d flows)))).




(** No Account row the store can return belongs to address [a]. *)
Definition noAccountRow (s : Store.t) (a : string) : Prop :=
  forall batch acct,
    In acct (Store.accountsIn s batch) ->
    Str.toLowerCase (AccountRow.address acct) <> a.


(** A small world: two transfers, three Account rows, every request
    answered, no label file, no document yet. *)
Definition sampleWorld : World :=
  mkWorld
    (Store.mk
       (fun _ => [TransferRow.mk 100 2999000 "0xA" "0xB" 100;
                  TransferRow.mk 1 2999500 "0xb" "0xc" 40])
       2
       (fun _ => [AccountRow.mk "0xb" 100 60 2])
       [AccountRow.mk "0xb" 100 60 2; AccountRow.mk "0xc" 1 40 1])
    (fun _ => None) 0 3000000000 "2026-01-01T00:00:00.000Z" None None.

(** ** Vocabulary of the further properties *)

(** Reading a rendered amount back: the digits in front of the dot, the
    digits behind it, and the 18-digit fixed-point number they denote. The
    script has no reader; this one states what a rendered string means. *)
Fixpoint splitDot (s : string) : string * string :=
  match s with
  | EmptyString => (EmptyString, EmptyString)
  | String c r =>
      if Ascii.eqb c "."%char then (EmptyString, r)
      else let (a, b) := splitDot r in (String c a, b)
  end.

Definition magnitudeOf (s : string) : Z :=
  let (ip, fp) := splitDot s in
  Str.digitsValue ip * 10 ^ 18
  + Str.digitsValue fp * 10 ^ (18 - Z.of_nat (String.length fp)).

Definition fromDecimalString (s : string) : Z :=
  match s with
  | EmptyString => 0
  | String c r => if Ascii.eqb c "-"%char then - magnitudeOf r else magnitudeOf s
  end.

(** The entry of [a] in a flow map, the fresh one when there is none. *)
Definition entryOf (flows : JSMap FlowEntry.t) (a : string) : FlowEntry.t :=
  default FlowEntry.fresh (JSMap.get flows a).

(** The transfers of a list that fall in the window and were received, or
    sent, by [a]. *)
Definition receivedBy (cutoff : Z) (a : string) (ts : list TransferRow.t)
    : list TransferRow.t :=
  filter (fun t => (cutoff <=? TransferRow.blockTimestamp t)
                   && String.eqb (Str.toLowerCase (TransferRow.to t)) a) ts.

Definition sentBy (cutoff : Z) (a : string) (ts : list TransferRow.t)
    : list TransferRow.t :=
  filter (fun t => (cutoff <=? TransferRow.blockTimestamp t)
                   && String.eqb (Str.toLowerCase (TransferRow.from t)) a) ts.

Definition sumValues (ts : list TransferRow.t) : Z :=
  fold_right (fun t s => TransferRow.value t + s) 0 ts.

(** The entry of [a] in the map of a window holds the totals of the
    transfers of that window that [a] took part in, and [a] has no entry
    exactly when there is no such transfer. *)
Definition windowTotals (cutoff : Z) (ts : list TransferRow.t) (a : string)
    (fmap : JSMap FlowEntry.t) : Prop :=
  FlowEntry.inflow (entryOf fmap a) = sumValues (receivedBy cutoff a ts)
  /\ FlowEntry.outflow (entryOf fmap a) = sumValues (sentBy cutoff a ts)
  /\ FlowEntry.count (entryOf fmap a)
     = Z.of_nat (length (receivedBy cutoff a ts) + length (sentBy cutoff a ts))
  /\ (JSMap.get fmap a = None <-> receivedBy cutoff a ts = [] /\ sentBy cutoff a ts = []).

(** A list of strings in strictly ascending code-unit order. *)
Definition ascending (l : list string) : Prop :=
  StronglySorted (fun a b => String.compare a b = Lt) l.

(** The entries [fetchTopHolders] renders: the map sorted by balance, cut to
    [TOP_N]. *)
Definition topHolders (holderMap : JSMap HolderEntry.t) : list (string * HolderEntry.t) :=
  firstn TOP_N (sortBy cmpHolder holderMap).

Definition holdsAtLeast (x y : string * HolderEntry.t) : Prop :=
  HolderEntry.balance (snd y) <= HolderEntry.balance (snd x).

Definition sameBalance (v : Z) (p : string * HolderEntry.t) : bool :=
  HolderEntry.balance (snd p) =? v.

(** The world after [k] more requests. *)
Definition advance (w : World) (k : nat) : World :=
  mkWorld (store w) (faults w) (requests w + k) (dateNow w) (isoString w)
          (labelsFile w) (document w).

(** No request of the run fails. *)
Definition allQuiet (w : World) : Prop := forall i, faults w i = None.

(** What one event adds to the sum of all balances: its value when it is
    received by an account, minus its value when it is sent by one. *)
Definition supplyChange (event : Indexer.Event.t) : Z :=
  (if String.eqb (Str.toLowerCase (Indexer.Event.params_to event)) Indexer.ZERO_ADDRESS
   then 0 else Indexer.Event.params_value event)
  - (if String.eqb (Str.toLowerCase (Indexer.Event.params_from event)) Indexer.ZERO_ADDRESS
     then 0 else Indexer.Event.params_value event).

Definition netSupply (events : list Indexer.Event.t) : Z :=
  fold_right (fun e s => supplyChange e + s) 0 events.

(** The transfer count the ledger holds for an address on a chain, zero when
    there is no row. *)
Definition ledgerCount (context : Indexer.Context) (chainId : Z) (addr : string) : Z :=
  default 0 (Indexer.Account.transferCount <$>
             Indexer.accounts context !! Indexer.accountId chainId addr).

(** The events of a log on chain [chainId] received, or sent, by [a]. *)
Definition creditedTo (chainId : Z) (a : string) (events : list Indexer.Event.t)
    : list Indexer.Event.t :=
  filter (fun e => (Indexer.Event.chainId e =? chainId)
                   && String.eqb (Str.toLowerCase (Indexer.Event.params_to e)) a) events.

Definition debitedFrom (chainId : Z) (a : string) (events : list Indexer.Event.t)
    : list Indexer.Event.t :=
  filter (fun e => (Indexer.Event.chainId e =? chainId)
                   && String.eqb (Str.toLowerCase (Indexer.Event.params_from e)) a) events.

Definition sumEventValues (events : list Indexer.Event.t) : Z :=
  fold_right (fun e s => Indexer.Event.params_value e + s) 0 events.

(** No underscore in a string. *)
Fixpoint noUnderscore (s : string) : bool :=
  match s with
  | EmptyString => true
  | String c r => negb (Ascii.eqb c "_"%char) && noUnderscore r
  end.

(** The balance and the transfer count a table holds under an id. *)
Definition balanceAt (table : gmap string Indexer.Account.t) (id : string) : Z :=
  default 0 (Indexer.Account.balance <$> table !! id).

Definition countAt (table : gmap string Indexer.Account.t) (id : string) : Z :=
  default 0 (Indexer.Account.transferCount <$> table !! id).

(** [`${event.chainId}_${event.block.number}_${event.logIndex}`] *)
Definition transferIdOf (event : Indexer.Event.t) : string :=
  Str.toString (Indexer.Event.chainId event) +:+ "_" +:+
  Str.toString (Indexer.Event.block_number event) +:+ "_" +:+
  Str.toString (Indexer.Event.logIndex event).

(** The Transfer row the handler stores for an event. *)
Definition transferOf (event : Indexer.Event.t) : Indexer.Transfer.t :=
  Indexer.Transfer.mk (transferIdOf event) (Indexer.Event.chainId event)
    (Indexer.Event.block_number event) (Indexer.Event.block_timestamp event)
    (Indexer.Event.transaction_hash event) (Indexer.Event.logIndex event)
    (Str.toLowerCase (Indexer.Event.params_from event))
    (Str.toLowerCase (Indexer.Event.params_to event))
    (Indexer.Event.params_value event).

(** An Account row written while handling [event]: keyed by its chain and
    address, on the chain of the event, stamped with its block. *)
Definition writtenBy (event : Indexer.Event.t) (id : string) (row : Indexer.Account.t) : Prop :=
  Indexer.Account.id row = id
  /\ id = Indexer.accountId (Indexer.Account.chainId row) (Indexer.Account.address row)
  /\ Indexer.Account.chainId row = Indexer.Event.chainId event
  /\ Indexer.Account.lastUpdatedBlock row = Indexer.Event.block_number event
  /\ Indexer.Account.lastUpdatedTimestamp row = Indexer.Event.block_timestamp event.




(** The addresses a run in [w] asks the balances of. *)
Definition askedAddresses (w : World) : list string :=
  let now := dateNow w / 1000 in
  let flows := computeFlows now (Store.transfersSince (store w) (cutoff30d now)) in
  rankedAddresses (buildTop (flows7d flows)) (buildTop (flows30d flows)).

(** * Properties *)


(** ** Strings and digits *)

#[local] Arguments Str.digitChar : simpl never.
#[local] Arguments Str.digitVal : simpl never.
#[local] Arguments Str.isDigit : simpl never.
#[local] Arguments Z.pow : simpl never.
#[local] Arguments Z.mul : simpl never.
#[local] Arguments Z.add : simpl never.
#[local] Arguments Z.sub : simpl never.
#[local] Arguments Z.div : simpl never.
#[local] Arguments Z.modulo : simpl never.
#[local] Arguments Z.of_nat : simpl never.

Lemma str_app_cons (c : ascii) (s t : string) : String c s +:+ t = String c (s +:+ t).
Proof. reflexivity. Qed.

Lemma str_app_nil_l (s : string) : "" +:+ s = s.
Proof. reflexivity. Qed.

Lemma str_app_nil_r (s : string) : s +:+ "" = s.
Proof. induction s as [|c s IH]; [reflexivity|]. rewrite str_app_cons, IH. reflexivity. Qed.

Lemma str_app_assoc (a b c : string) : (a +:+ b) +:+ c = a +:+ (b +:+ c).
Proof.
  induction a as [|x a IH]; [reflexivity|].
  rewrite !str_app_cons, IH. reflexivity.
Qed.

Lemma str_length_app (a b : string) :
  String.length (a +:+ b) = (String.length a + String.length b)%nat.
Proof.
  induction a as [|x a IH]; [reflexivity|].
  rewrite str_app_cons. simpl. rewrite IH. reflexivity.
Qed.

Lemma length_zeros (k : nat) : String.length (Str.zeros k) = k.
Proof. induction k as [|k IH]; simpl; [reflexivity|]. rewrite IH. reflexivity. Qed.

Lemma allDigits_app (a b : string) :
  Str.allDigits (a +:+ b) = Str.allDigits a && Str.allDigits b.
Proof.
  induction a as [|x a IH]; [reflexivity|].
  rewrite str_app_cons. simpl. rewrite IH. apply andb_assoc.
Qed.

Lemma allDigits_zeros (k : nat) : Str.allDigits (Str.zeros k) = true.
Proof. induction k as [|k IH]; simpl; [reflexivity|]. exact IH. Qed.

Lemma digitsValueAcc_app (acc : Z) (a b : string) :
  Str.digitsValueAcc acc (a +:+ b) = Str.digitsValueAcc (Str.digitsValueAcc acc a) b.
Proof.
  revert acc. induction a as [|x a IH]; intros acc; [reflexivity|].
  rewrite str_app_cons. simpl. apply IH.
Qed.

Lemma digitsValueAcc_zeros (acc : Z) (k : nat) :
  Str.digitsValueAcc acc (Str.zeros k) = acc * 10 ^ Z.of_nat k.
Proof.
  revert acc. induction k as [|k IH]; intros acc.
  - simpl. lia.
  - cbn [Str.zeros Str.digitsValueAcc]. rewrite IH.
    replace (Str.digitVal Str.zeroChar) with 0 by reflexivity.
    rewrite Nat2Z.inj_succ, Z.pow_succ_r by lia. lia.
Qed.

Lemma digitVal_digitChar (d : Z) : 0 <= d < 10 -> Str.digitVal (Str.digitChar d) = d.
Proof.
  intros H.
  assert (d = 0 \/ d = 1 \/ d = 2 \/ d = 3 \/ d = 4 \/ d = 5 \/ d = 6 \/ d = 7
          \/ d = 8 \/ d = 9) as Hd by lia.
  repeat (destruct Hd as [-> | Hd]; [reflexivity|]). subst d. reflexivity.
Qed.

Lemma isDigit_digitChar (d : Z) : 0 <= d < 10 -> Str.isDigit (Str.digitChar d) = true.
Proof.
  intros H.
  assert (d = 0 \/ d = 1 \/ d = 2 \/ d = 3 \/ d = 4 \/ d = 5 \/ d = 6 \/ d = 7
          \/ d = 8 \/ d = 9) as Hd by lia.
  repeat (destruct Hd as [-> | Hd]; [reflexivity|]). subst d. reflexivity.
Qed.

Lemma digitChar_zero (d : Z) : 0 <= d < 10 -> Str.digitChar d = Str.zeroChar -> d = 0.
Proof.
  intros H E. rewrite <- (digitVal_digitChar d H), E. reflexivity.
Qed.

Lemma natDigits_spec (fuel : nat) :
  forall (n : Z) (acc : string),
    0 <= n < 10 ^ Z.of_nat fuel -> (0 < fuel)%nat ->
    exists s, Str.natDigits fuel n acc = s +:+ acc /\ digitsOf n s.
Proof.
  induction fuel as [|f IH]; intros n acc Hn Hf; [lia|].
  cbn [Str.natDigits].
  assert (Hd : 0 <= n mod 10 < 10) by (apply Z.mod_pos_bound; lia).
  assert (Hdiv : n = 10 * (n / 10) + n mod 10) by (apply Z.div_mod; lia).
  destruct (n / 10 =? 0) eqn:Hq.
  - apply Z.eqb_eq in Hq.
    exists (String (Str.digitChar (n mod 10)) "").
    split; [reflexivity|].
    assert (Hn' : n mod 10 = n) by lia.
    split.
    + cbn. rewrite isDigit_digitChar by assumption. reflexivity.
    + discriminate.
    + unfold Str.digitsValue. cbn. rewrite digitVal_digitChar by assumption. lia.
    + cbn [String.length]. change (Z.of_nat 1) with 1. lia.
    + intros Hpos. cbn [String.length]. change (Z.of_nat 1 - 1) with 0.
      rewrite Z.pow_0_r. lia.
    + cbn. intros E. injection E as E.
      apply digitChar_zero in E; [|assumption]. rewrite E. reflexivity.
  - apply Z.eqb_neq in Hq.
    assert (Hq0 : 0 <= n / 10) by (apply Z.div_pos; lia).
    assert (Hf' : (0 < f)%nat).
    { destruct f; [|lia]. cbn in Hn.
      assert (n / 10 = 0) by (apply Z.div_small; lia). lia. }
    assert (Hq1 : n / 10 < 10 ^ Z.of_nat f).
    { apply Z.div_lt_upper_bound; [lia|].
      rewrite Nat2Z.inj_succ, Z.pow_succ_r in Hn by lia. lia. }
    destruct (IH (n / 10) (String (Str.digitChar (n mod 10)) acc)) as (s' & Hs' & D');
      [lia | assumption |].
    destruct D' as [Dall Dne Dval Dup Dlo Dun].
    exists (s' +:+ String (Str.digitChar (n mod 10)) "").
    split.
    { rewrite Hs', str_app_assoc. reflexivity. }
    assert (Hlen : String.length (s' +:+ String (Str.digitChar (n mod 10)) "")
                   = S (String.length s')).
    { rewrite str_length_app. cbn. lia. }
    split.
    + rewrite allDigits_app, Dall. cbn.
      rewrite isDigit_digitChar by assumption. reflexivity.
    + destruct s'; [contradiction|]. discriminate.
    + unfold Str.digitsValue in *. rewrite digitsValueAcc_app, Dval. cbn.
      rewrite digitVal_digitChar by assumption. lia.
    + rewrite Hlen, Nat2Z.inj_succ, Z.pow_succ_r by lia. lia.
    + intros _. rewrite Hlen, Nat2Z.inj_succ.
      replace (Z.succ (Z.of_nat (String.length s')) - 1)
        with (Z.succ (Z.of_nat (String.length s') - 1)) by lia.
      assert (0 < String.length s')%nat.
      { destruct s'; [contradiction|]. cbn. lia. }
      rewrite Z.pow_succ_r by lia.
      assert (10 ^ (Z.of_nat (String.length s') - 1) <= n / 10) by (apply Dlo; lia).
      lia.
    + intros E. exfalso.
      destruct s' as [|c s'']; [contradiction|].
      rewrite str_app_cons in E. cbn in E.
      assert (Hz : String c s'' = "0") by (apply Dun; exact E).
      rewrite Hz in Dval. unfold Str.digitsValue in Dval. cbn in Dval.
      change (Str.digitVal "0") with 0 in Dval. lia.
Qed.

Lemma digitFuel_enough (n : Z) : 0 <= n -> n < 10 ^ Z.of_nat (Str.digitFuel n).
Proof.
  intros Hn. unfold Str.digitFuel.
  rewrite Nat2Z.inj_succ, Z2Nat.id by apply Z.log2_nonneg.
  destruct (Z.eq_dec n 0) as [-> | Hne].
  - cbn. lia.
  - assert (Hl : n < 2 ^ Z.succ (Z.log2 n)) by (apply Z.log2_spec; lia).
    assert (2 ^ Z.succ (Z.log2 n) <= 10 ^ Z.succ (Z.log2 n)).
    { apply Z.pow_le_mono_l. lia. }
    lia.
Qed.

Lemma toString_nonneg (n : Z) : 0 <= n -> digitsOf n (Str.toString n).
Proof.
  intros Hn. unfold Str.toString.
  destruct (n <? 0) eqn:E; [apply Z.ltb_lt in E; lia|].
  destruct (natDigits_spec (Str.digitFuel n) n "") as (s & Hs & D).
  - split; [assumption | apply digitFuel_enough; assumption].
  - unfold Str.digitFuel. lia.
  - rewrite Hs, str_app_nil_r. exact D.
Qed.

(** The regular expression [/0+$/] removes a run of zeros and nothing else,
    and leaves no zero at the end. *)
Lemma stripTrailingZeros_spec (s : string) :
  exists k : nat,
    s = Str.stripTrailingZeros s +:+ Str.zeros k
    /\ Str.lastChar (Str.stripTrailingZeros s) <> Some Str.zeroChar.
Proof.
  induction s as [|c r IH].
  - exists O. split; [reflexivity | discriminate].
  - destruct IH as (k & Hr & Hl). cbn [Str.stripTrailingZeros].
    destruct (Str.stripTrailingZeros r) as [|c' r'] eqn:E.
    + destruct (Ascii.eqb c Str.zeroChar) eqn:Ec.
      * apply Ascii.eqb_eq in Ec. subst c. exists (S k).
        rewrite Hr at 1. split; [reflexivity | discriminate].
      * exists k. rewrite Hr at 1. split; [reflexivity|].
        cbn. intros H. injection H as H.
        apply Ascii.eqb_neq in Ec. contradiction.
    + exists k. rewrite Hr at 1. split; [reflexivity|]. exact Hl.
Qed.

Lemma firstChar_app (a b : string) : a <> "" -> Str.firstChar (a +:+ b) = Str.firstChar a.
Proof. destruct a; [contradiction | reflexivity]. Qed.

(** ** The decimal codec *)

(** The fraction digits: eighteen digits, the zeros at the end dropped. *)
Lemma fraction_digits (frac : Z) :
  0 < frac < 10 ^ 18 ->
  let fp := Str.stripTrailingZeros (Str.padStart 18 (Str.toString frac)) in
  Str.allDigits fp = true
  /\ (String.length fp <= 18)%nat
  /\ Str.lastChar fp <> Some Str.zeroChar
  /\ Str.digitsValue fp * 10 ^ (18 - Z.of_nat (String.length fp)) = frac
  /\ fp <> "".
Proof.
  intros Hf fp.
  destruct (toString_nonneg frac) as [Tall Tne Tval Tup Tlo _]; [lia|].
  set (t := Str.toString frac) in *.
  assert (Hlen : (String.length t <= 18)%nat).
  { assert (H : 10 ^ (Z.of_nat (String.length t) - 1) <= frac) by (apply Tlo; lia).
    destruct (le_lt_dec (String.length t) 18) as [|Hgt]; [assumption|].
    assert (10 ^ 18 <= 10 ^ (Z.of_nat (String.length t) - 1))
      by (apply Z.pow_le_mono_r; lia).
    lia. }
  set (padded := Str.padStart 18 t) in *.
  assert (Plen : String.length padded = 18%nat).
  { unfold padded, Str.padStart. rewrite str_length_app, length_zeros. lia. }
  assert (Pall : Str.allDigits padded = true).
  { unfold padded, Str.padStart. rewrite allDigits_app, allDigits_zeros, Tall. reflexivity. }
  assert (Pval : Str.digitsValue padded = frac).
  { unfold padded, Str.padStart, Str.digitsValue.
    rewrite digitsValueAcc_app, digitsValueAcc_zeros.
    unfold Str.digitsValue in Tval. rewrite Z.mul_0_l. exact Tval. }
  destruct (stripTrailingZeros_spec padded) as (k & Hk & Hlast).
  fold fp in Hk, Hlast.
  assert (Hlens : (String.length fp + k = 18)%nat).
  { pose proof (f_equal String.length Hk) as HL.
    rewrite str_length_app, length_zeros, Plen in HL. lia. }
  assert (Hv : Str.digitsValue fp * 10 ^ Z.of_nat k = frac).
  { pose proof (f_equal Str.digitsValue Hk) as HV.
    unfold Str.digitsValue in HV at 2.
    rewrite digitsValueAcc_app, digitsValueAcc_zeros in HV.
    fold (Str.digitsValue fp) in HV. lia. }
  split; [|split; [lia | split; [exact Hlast | split]]].
  - rewrite Hk, allDigits_app in Pall. apply andb_true_iff in Pall. tauto.
  - replace (18 - Z.of_nat (String.length fp)) with (Z.of_nat k) by lia. exact Hv.
  - intros E. rewrite E in Hv. unfold Str.digitsValue in Hv. cbn in Hv. lia.
Qed.

Lemma bigintToDecimalString_minimal (raw : Z) :
  minimalDecimal raw (bigintToDecimalString raw).
Proof.
  unfold minimalDecimal, bigintToDecimalString.
  set (a := if raw <? 0 then - raw else raw).
  assert (Ha : a = Z.abs raw).
  { unfold a. destruct (raw <? 0) eqn:E; [apply Z.ltb_lt in E | apply Z.ltb_ge in E]; lia. }
  assert (Ha0 : 0 <= a) by lia.
  assert (HD : DECIMALS_DIVISOR = 10 ^ 18) by reflexivity.
  assert (HDpos : 0 < 10 ^ 18) by (apply Z.pow_pos_nonneg; lia).
  rewrite Z.quot_div_nonneg, Z.rem_mod_nonneg by (rewrite ?HD; lia).
  rewrite HD, <- Ha.
  assert (Hw : 0 <= a / 10 ^ 18) by (apply Z.div_pos; lia).
  assert (Hm : 0 <= a mod 10 ^ 18 < 10 ^ 18) by (apply Z.mod_pos_bound; lia).
  destruct (toString_nonneg (a / 10 ^ 18) Hw) as [Wall Wne Wval Wup Wlo Wun].
  destruct (a mod 10 ^ 18 =? 0) eqn:Ef.
  - apply Z.eqb_eq in Ef.
    exists (Str.toString (a / 10 ^ 18)), "".
    rewrite str_app_nil_r, Ef.
    repeat split; try assumption; try reflexivity; try (cbn; lia); try discriminate.
  - apply Z.eqb_neq in Ef.
    destruct (fraction_digits (a mod 10 ^ 18)) as (Fall & Flen & Flast & Fval & Fne); [lia|].
    set (fp := Str.stripTrailingZeros (Str.padStart 18 (Str.toString (a mod 10 ^ 18)))) in *.
    exists (Str.toString (a / 10 ^ 18)), fp.
    split.
    { destruct fp; [contradiction | reflexivity]. }
    repeat split; try assumption.
    + intros E. contradiction.
    + intros E. contradiction.
Qed.

(** C1. For every signed integer [raw], [bigintToDecimalString raw] is the
    minimal decimal string of the 18-digit fixed-point number: unpadded
    integer part, a fraction only when it is not zero and without trailing
    zeros, a leading ["-"] exactly when [raw] is negative, the digits being
    those of the absolute value. The four examples of the specification are
    instances. *)
Theorem bigintToDecimalString_correct :
  (forall raw : Z,
      minimalDecimal raw (bigintToDecimalString raw)
      /\ (Str.firstChar (bigintToDecimalString raw) = Some "-"%char <-> raw < 0))
  /\ bigintToDecimalString 0 = "0"
  /\ bigintToDecimalString 1500000000000000000 = "1.5"
  /\ bigintToDecimalString 1000000000000000000 = "1"
  /\ bigintToDecimalString (-250000000000000000) = "-0.25".
Proof.
  split; [|repeat split; vm_compute; reflexivity].
  intros raw. split; [apply bigintToDecimalString_minimal|].
  destruct (bigintToDecimalString_minimal raw)
    as (ip & fp & Hs & Iall & Ine & _ & _ & _).
  rewrite Hs. destruct (raw <? 0) eqn:E.
  - apply Z.ltb_lt in E. split; [intros _; exact E | intros _; reflexivity].
  - apply Z.ltb_ge in E. rewrite str_app_nil_l, firstChar_app by assumption.
    split; [|lia]. intros H. exfalso.
    destruct ip as [|c ip]; [contradiction|]. cbn in H, Iall.
    injection H as ->. discriminate Iall.
Qed.

(** ** JS maps and sets *)

Section JSMapFacts.
Context {V : Type}.
Implicit Types (m : JSMap V) (k : string) (v : V).

Lemma get_set_eq m k v : JSMap.get (JSMap.set m k v) k = Some v.
Proof.
  induction m as [|[k' v'] m IH]; simpl.
  - rewrite String.eqb_refl. reflexivity.
  - destruct (String.eqb k' k) eqn:E; simpl; rewrite E; [reflexivity | exact IH].
Qed.

Lemma get_set_ne m k k' v : k <> k' -> JSMap.get (JSMap.set m k v) k' = JSMap.get m k'.
Proof.
  intros Hne. induction m as [|[k0 v0] m IH]; simpl.
  - destruct (String.eqb k k') eqn:E; [|reflexivity].
    apply String.eqb_eq in E. contradiction.
  - destruct (String.eqb k0 k) eqn:E; simpl.
    + apply String.eqb_eq in E. subst k0.
      apply String.eqb_neq in Hne. rewrite Hne. reflexivity.
    + rewrite IH. reflexivity.
Qed.

Lemma keys_set m k v x :
  In x (JSMap.keys (JSMap.set m k v)) <-> x = k \/ In x (JSMap.keys m).
Proof.
  unfold JSMap.keys. induction m as [|[k0 v0] m IH]; simpl.
  - intuition.
  - destruct (String.eqb k0 k) eqn:E; simpl.
    + apply String.eqb_eq in E. subst k0. intuition.
    + rewrite IH. intuition.
Qed.

Lemma get_Some_keys m k v : JSMap.get m k = Some v -> In k (JSMap.keys m).
Proof.
  unfold JSMap.keys. induction m as [|[k0 v0] m IH]; simpl; [discriminate|].
  destruct (String.eqb k0 k) eqn:E.
  - apply String.eqb_eq in E. intros _. left. exact E.
  - intros H. right. apply IH. exact H.
Qed.

Lemma keys_get_Some m k : In k (JSMap.keys m) -> exists v, JSMap.get m k = Some v.
Proof.
  unfold JSMap.keys. induction m as [|[k0 v0] m IH]; simpl; [contradiction|].
  intros H. destruct (String.eqb k0 k) eqn:E; [eexists; reflexivity|].
  destruct H as [H|H]; [|apply IH; exact H].
  subst k0. rewrite String.eqb_refl in E. discriminate.
Qed.

Lemma get_In m k v : JSMap.get m k = Some v -> In (k, v) m.
Proof.
  induction m as [|[k0 v0] m IH]; simpl; [discriminate|].
  destruct (String.eqb k0 k) eqn:E.
  - apply String.eqb_eq in E. intros H. injection H as ->. left. congruence.
  - intros H. right. apply IH. exact H.
Qed.

End JSMapFacts.

Lemma JSSet_has_In (s : list string) (x : string) : JSSet.has s x = true <-> In x s.
Proof.
  unfold JSSet.has. rewrite existsb_exists. split.
  - intros (y & Hy & E). apply String.eqb_eq in E. subst y. exact Hy.
  - intros H. exists x. split; [exact H | apply String.eqb_refl].
Qed.

Lemma JSSet_add_In (s : list string) (x y : string) :
  In y (JSSet.add s x) <-> y = x \/ In y s.
Proof.
  unfold JSSet.add. destruct (JSSet.has s x) eqn:E.
  - apply JSSet_has_In in E. split; [auto | intros [->|H]; assumption].
  - rewrite in_app_iff. simpl. intuition.
Qed.

(** ** The stable sort *)

Section SortFacts.
Context {A : Type} (cmp : A -> A -> Z).

Lemma insertBy_perm (x : A) (l : list A) : Permutation (insertBy cmp x l) (x :: l).
Proof.
  induction l as [|y l IH]; simpl; [reflexivity|].
  destruct (cmp x y <=? 0); [reflexivity|].
  rewrite IH. apply perm_swap.
Qed.

Lemma sortBy_perm (l : list A) : Permutation (sortBy cmp l) l.
Proof.
  induction l as [|x l IH]; simpl; [reflexivity|].
  rewrite insertBy_perm, IH. reflexivity.
Qed.

Lemma sortBy_In (l : list A) (x : A) : In x (sortBy cmp l) <-> In x l.
Proof.
  split; apply Permutation_in; [|symmetry]; apply sortBy_perm.
Qed.

Lemma sortBy_length (l : list A) : length (sortBy cmp l) = length l.
Proof. apply Permutation_length, sortBy_perm. Qed.

(** An element is inserted behind exactly those it must follow. *)
Lemma insertBy_split (x : A) (l : list A) :
  exists l1 l2,
    l = l1 ++ l2 /\ insertBy cmp x l = l1 ++ x :: l2
    /\ Forall (fun y => 0 < cmp x y) l1
    /\ match l2 with [] => True | y :: _ => cmp x y <= 0 end.
Proof.
  induction l as [|y l IH]; simpl.
  - exists [], []. repeat split. constructor.
  - destruct (cmp x y <=? 0) eqn:E.
    + exists [], (y :: l). apply Z.leb_le in E. repeat split; [constructor | exact E].
    + destruct IH as (l1 & l2 & Hl & Hi & Hf & Hh).
      exists (y :: l1), l2. apply Z.leb_gt in E.
      rewrite Hi. repeat split; [rewrite Hl; reflexivity | | exact Hh].
      constructor; assumption.
Qed.

(** Stability: the elements selected by a predicate that never holds of two
    elements one of which must strictly follow the other keep their relative
    order. *)
Lemma sortBy_stable (p : A -> bool) :
  (forall x y, p x = true -> p y = true -> cmp x y <= 0) ->
  forall l, filter p (sortBy cmp l) = filter p l.
Proof.
  intros Hp. induction l as [|x l IH]; [reflexivity|].
  simpl. destruct (insertBy_split x (sortBy cmp l)) as (l1 & l2 & Hl & Hi & Hf & _).
  rewrite Hi, <- IH, Hl, !filter_app. simpl.
  destruct (p x) eqn:Ex; [|reflexivity].
  assert (Hn : filter p l1 = []).
  { clear Hl Hi. induction Hf as [|y l1 Hy Hf IH1]; [reflexivity|].
    simpl. destruct (p y) eqn:Ey; [|exact IH1].
    specialize (Hp x y Ex Ey). lia. }
  rewrite Hn. reflexivity.
Qed.
End SortFacts.

Section SortedFacts.
Context {A : Type} (cmp : A -> A -> Z) (key : A -> Z).

Lemma insertBy_sorted (x : A) (l : list A) :
  (forall a b, cmp a b <= 0 <-> key b <= key a) ->
  StronglySorted (fun a b => key b <= key a) l ->
  StronglySorted (fun a b => key b <= key a) (insertBy cmp x l).
Proof.
  intros Hcmp. induction l as [|y l IH]; intros Hs; simpl.
  - constructor; constructor.
  - apply StronglySorted_inv in Hs as [Hs Hy].
    destruct (cmp x y <=? 0) eqn:E.
    + apply Z.leb_le, Hcmp in E.
      constructor; [constructor; assumption|].
      constructor; [exact E|].
      eapply Forall_impl; [|exact Hy]. simpl. intros z Hz. lia.
    + apply Z.leb_gt in E.
      assert (Hxy : key x <= key y).
      { destruct (Z.le_gt_cases (key y) (key x)) as [H|H]; [|lia].
        apply Hcmp in H. lia. }
      constructor; [apply IH; exact Hs|].
      eapply Permutation_Forall; [symmetry; apply insertBy_perm|].
      constructor; assumption.
Qed.

Lemma sortBy_sorted (l : list A) :
  (forall a b, cmp a b <= 0 <-> key b <= key a) ->
  StronglySorted (fun a b => key b <= key a) (sortBy cmp l).
Proof.
  intros Hcmp. induction l as [|x l IH]; simpl; [constructor|].
  apply insertBy_sorted; assumption.
Qed.

End SortedFacts.

Lemma StronglySorted_app_inv {A : Type} (R : A -> A -> Prop) (l1 l2 : list A) :
  StronglySorted R (l1 ++ l2) ->
  StronglySorted R l1 /\ StronglySorted R l2
  /\ forall x y, In x l1 -> In y l2 -> R x y.
Proof.
  induction l1 as [|a l1 IH]; simpl; intros Hs.
  - split; [constructor | split; [exact Hs | intros x y []]].
  - apply StronglySorted_inv in Hs as [Hs Ha].
    destruct (IH Hs) as (H1 & H2 & H12).
    apply Forall_app in Ha as [Ha1 Ha2].
    split; [constructor; assumption | split; [exact H2|]].
    intros x y [->|Hx] Hy; [|apply H12; assumption].
    rewrite Forall_forall in Ha2. apply Ha2. exact Hy.
Qed.

(** ** Flow aggregation *)

Lemma tracked_spec (a : string) : tracked a = true <-> a <> "" /\ a <> ZERO.
Proof.
  unfold tracked. rewrite andb_true_iff, negb_true_iff. split.
  - intros [Ht Hz]. split.
    + intros ->. discriminate Ht.
    + intros ->. rewrite String.eqb_refl in Hz. discriminate.
  - intros [Hne Hz]. split.
    + destruct a; [contradiction | reflexivity].
    + apply String.eqb_neq. exact Hz.
Qed.

Lemma Forall_set {V : Type} (P : string * V -> Prop) (m : JSMap V) (k : string) (v : V) :
  Forall P m -> P (k, v) -> Forall P (JSMap.set m k v).
Proof.
  intros Hm Hkv. induction Hm as [|[k0 v0] m H0 Hm IH]; simpl.
  - constructor; [exact Hkv | constructor].
  - destruct (String.eqb k0 k) eqn:E.
    + apply String.eqb_eq in E. subst k0. constructor; assumption.
    + constructor; assumption.
Qed.

Lemma default_count_nonneg (flows : JSMap FlowEntry.t) (a : string) :
  Forall flowEntryOk flows ->
  0 <= FlowEntry.count (default FlowEntry.fresh (JSMap.get flows a)).
Proof.
  intros Hf. destruct (JSMap.get flows a) as [e|] eqn:E; simpl; [|lia].
  apply get_In in E. rewrite Forall_forall in Hf. apply Hf in E as [_ Hc].
  simpl in Hc. lia.
Qed.

Lemma debit_ok flows a value chain :
  tracked a = true -> Forall flowEntryOk flows ->
  Forall flowEntryOk (debit flows a value chain).
Proof.
  intros Ht Hf. unfold debit. apply Forall_set; [exact Hf|].
  split; [exact Ht|]. simpl. pose proof (default_count_nonneg flows a Hf). lia.
Qed.

Lemma credit_ok flows a value chain :
  tracked a = true -> Forall flowEntryOk flows ->
  Forall flowEntryOk (credit flows a value chain).
Proof.
  intros Ht Hf. unfold credit. apply Forall_set; [exact Hf|].
  split; [exact Ht|]. simpl. pose proof (default_count_nonneg flows a Hf). lia.
Qed.

Lemma windowStep_ok cutoff flows t :
  Forall flowEntryOk flows -> Forall flowEntryOk (windowStep cutoff flows t).
Proof.
  intros Hf. unfold windowStep.
  destruct (TransferRow.blockTimestamp t <? cutoff); [exact Hf|].
  destruct (tracked (Str.toLowerCase (TransferRow.from t))) eqn:E1;
    destruct (tracked (Str.toLowerCase (TransferRow.to t))) eqn:E2;
    auto using debit_ok, credit_ok.
Qed.

(** Each window map of [computeFlows] is the fold of its own step. *)
Lemma computeFlows_fold now ts w :
  fold_left (transferStep now) ts w
  = mkWindows (fold_left (windowStep (cutoff30d now)) ts (flows30d w))
              (fold_left (windowStep (cutoff7d now)) ts (flows7d w)).
Proof.
  revert w. induction ts as [|t ts IH]; intros w; simpl.
  - destruct w; reflexivity.
  - rewrite IH. reflexivity.
Qed.

Lemma fold_windowStep_ok cutoff ts flows :
  Forall flowEntryOk flows -> Forall flowEntryOk (fold_left (windowStep cutoff) ts flows).
Proof.
  revert flows. induction ts as [|t ts IH]; intros flows Hf; simpl; [exact Hf|].
  apply IH, windowStep_ok, Hf.
Qed.

Lemma windowStep_self cutoff flows t a :
  Str.toLowerCase (TransferRow.from t) = a ->
  Str.toLowerCase (TransferRow.to t) = a ->
  a <> "" -> a <> ZERO ->
  cutoff <= TransferRow.blockTimestamp t ->
  exists after,
    JSMap.get (windowStep cutoff flows t) a = Some after
    /\ bothWays (TransferRow.value t)
         (default FlowEntry.fresh (JSMap.get flows a)) after.
Proof.
  intros Hfrom Hto Hne Hz Hts. unfold windowStep. rewrite Hfrom, Hto.
  destruct (TransferRow.blockTimestamp t <? cutoff) eqn:E;
    [apply Z.ltb_lt in E; lia|].
  assert (Ht : tracked a = true) by (apply tracked_spec; split; assumption).
  rewrite Ht. unfold credit. rewrite get_set_eq. eexists. split; [reflexivity|].
  unfold debit. rewrite get_set_eq. unfold bothWays, FlowEntry.net. simpl.
  repeat split; lia.
Qed.

(** C2. A transfer inside a flow window whose sender and receiver are the
    same address [a] (a non-empty string other than the zero address, so that
    it passes the guard [a && a !== ZERO]) adds [value] to the inflow and
    [value] to the outflow of [a]'s entry and leaves its net flow as it
    was. This holds for one pass of the inner loop and for each of the two
    window maps of the loop body. *)
Theorem self_transfer_net_zero :
  forall (now : Z) (w : Windows) (t : TransferRow.t) (a : string),
    Str.toLowerCase (TransferRow.from t) = a ->
    Str.toLowerCase (TransferRow.to t) = a ->
    a <> "" -> a <> ZERO ->
    (forall cutoff flows,
        cutoff <= TransferRow.blockTimestamp t ->
        exists after,
          JSMap.get (windowStep cutoff flows t) a = Some after
          /\ bothWays (TransferRow.value t)
               (default FlowEntry.fresh (JSMap.get flows a)) after)
    /\ (cutoff30d now <= TransferRow.blockTimestamp t ->
        exists after,
          JSMap.get (flows30d (transferStep now w t)) a = Some after
          /\ bothWays (TransferRow.value t)
               (default FlowEntry.fresh (JSMap.get (flows30d w) a)) after)
    /\ (cutoff7d now <= TransferRow.blockTimestamp t ->
        exists after,
          JSMap.get (flows7d (transferStep now w t)) a = Some after
          /\ bothWays (TransferRow.value t)
               (default FlowEntry.fresh (JSMap.get (flows7d w) a)) after).
Proof.
  intros now w t a Hfrom Hto Hne Hz. split; [|split].
  - intros cutoff flows Hts. apply windowStep_self; assumption.
  - intros Hts. simpl. apply windowStep_self; assumption.
  - intros Hts. simpl. apply windowStep_self; assumption.
Qed.

Lemma self_transfer_net_zero_witness :
  exists after,
    JSMap.get
      (windowStep 100
         [("0xab", FlowEntry.mk 7 3 2 ["gnosis"])]
         (TransferRow.mk 1 150 "0xAB" "0xab" 5))
      "0xab" = Some after
    /\ bothWays 5 (FlowEntry.mk 7 3 2 ["gnosis"]) after.
Proof.
  refine (proj1 (self_transfer_net_zero 1000 (mkWindows [] [])
                   (TransferRow.mk 1 150 "0xAB" "0xab" 5) "0xab" _ _ _ _)
            100 [("0xab", FlowEntry.mk 7 3 2 ["gnosis"])] _).
  - reflexivity.
  - reflexivity.
  - discriminate.
  - discriminate.
  - simpl. lia.
Defined.

Lemma windowStep_keys cutoff flows t x :
  In x (JSMap.keys (windowStep cutoff flows t)) <->
  In x (JSMap.keys flows)
  \/ (cutoff <= TransferRow.blockTimestamp t
      /\ tracked x = true
      /\ (x = Str.toLowerCase (TransferRow.from t)
          \/ x = Str.toLowerCase (TransferRow.to t))).
Proof.
  unfold windowStep, debit, credit.
  destruct (TransferRow.blockTimestamp t <? cutoff) eqn:E;
    [apply Z.ltb_lt in E | apply Z.ltb_ge in E].
  - split; [auto | intros [H|[H _]]; [exact H | lia]].
  - destruct (tracked (Str.toLowerCase (TransferRow.from t))) eqn:E1;
      destruct (tracked (Str.toLowerCase (TransferRow.to t))) eqn:E2;
      rewrite ?keys_set; split;
      intros H; intuition (subst; try congruence; auto).
Qed.

(** The narrow window never has an address the wide one lacks. *)
Lemma fold_windowStep_subset c7 c30 ts f7 f30 :
  c30 <= c7 ->
  (forall x, In x (JSMap.keys f7) -> In x (JSMap.keys f30)) ->
  forall x,
    In x (JSMap.keys (fold_left (windowStep c7) ts f7)) ->
    In x (JSMap.keys (fold_left (windowStep c30) ts f30)).
Proof.
  intros Hc. revert f7 f30. induction ts as [|t ts IH]; intros f7 f30 Hsub x; simpl.
  - apply Hsub.
  - apply IH. clear x. intros x Hx.
    apply windowStep_keys in Hx. apply windowStep_keys.
    destruct Hx as [Hx | (Hts & Htr & Hx)]; [left; apply Hsub; exact Hx|].
    right. split; [lia | split; assumption].
Qed.

Lemma fold_windowStep_filter cutoff ts flows :
  fold_left (windowStep cutoff) ts flows
  = fold_left (windowStep cutoff)
      (filter (fun t => cutoff <=? TransferRow.blockTimestamp t) ts) flows.
Proof.
  revert flows. induction ts as [|t ts IH]; intros flows; simpl; [reflexivity|].
  destruct (cutoff <=? TransferRow.blockTimestamp t) eqn:E; simpl.
  - apply IH.
  - rewrite <- IH. f_equal. unfold windowStep.
    apply Z.leb_gt in E. apply Z.ltb_lt in E. rewrite E. reflexivity.
Qed.

(** C6. Both window maps are folds over the same retrieved transfers; the
    7-day map only sees those at or after its cutoff, all of which are at
    or after the 30-day cutoff; so every address with an entry (of nonzero
    count) in the 7-day map has an entry (of nonzero count) in the 30-day
    map. *)
Theorem window_7d_within_30d :
  forall (now : Z) (allTransfers : list TransferRow.t),
    let flows := computeFlows now allTransfers in
    let scanned cutoff :=
      filter (fun t => cutoff <=? TransferRow.blockTimestamp t) allTransfers in
    (forall (a : string) (e : FlowEntry.t),
        JSMap.get (flows7d flows) a = Some e -> FlowEntry.count e <> 0 ->
        exists e', JSMap.get (flows30d flows) a = Some e' /\ FlowEntry.count e' <> 0)
    /\ flows7d flows = fold_left (windowStep (cutoff7d now)) (scanned (cutoff7d now)) []
    /\ flows30d flows = fold_left (windowStep (cutoff30d now)) (scanned (cutoff30d now)) []
    /\ (forall t, In t (scanned (cutoff7d now)) -> In t (scanned (cutoff30d now))).
Proof.
  intros now ts flows scanned. unfold flows, computeFlows.
  rewrite computeFlows_fold. simpl.
  assert (Hc : cutoff30d now <= cutoff7d now) by (unfold cutoff30d, cutoff7d; lia).
  split; [|split; [apply fold_windowStep_filter | split; [apply fold_windowStep_filter|]]].
  - intros a e Hget _.
    apply get_Some_keys in Hget.
    apply (fold_windowStep_subset _ (cutoff30d now) ts [] []) in Hget;
      [|exact Hc | intros x []].
    apply keys_get_Some in Hget as [e' He']. exists e'. split; [exact He'|].
    assert (Hok : Forall flowEntryOk (fold_left (windowStep (cutoff30d now)) ts []))
      by (apply fold_windowStep_ok; constructor).
    rewrite Forall_forall in Hok. apply get_In in He'. apply Hok in He' as [_ H].
    simpl in H. lia.
  - intros t. unfold scanned. rewrite !filter_In.
    intros [Hin Ht]. split; [exact Hin|].
    apply Z.leb_le in Ht. apply Z.leb_le. lia.
Qed.

Lemma window_7d_within_30d_witness :
  exists e',
    JSMap.get
      (flows30d (computeFlows 3000000
         [TransferRow.mk 100 2999000 "0xA" "0xB" 100;
          TransferRow.mk 1 1300000 "0xb" "0xc" 40]))
      "0xb" = Some e'
    /\ FlowEntry.count e' <> 0.
Proof.
  refine (proj1 (window_7d_within_30d 3000000
                   [TransferRow.mk 100 2999000 "0xA" "0xB" 100;
                    TransferRow.mk 1 1300000 "0xb" "0xc" 40])
            "0xb" (FlowEntry.mk 100 0 1 ["gnosis"]) _ _).
  - vm_compute. reflexivity.
  - simpl. lia.
Defined.

(** ** Ranking *)



Lemma In_firstn {A : Type} (n : nat) (l : list A) (x : A) :
  In x (firstn n l) -> In x l.
Proof.
  intros H. rewrite <- (firstn_skipn n l). apply in_or_app. left. exact H.
Qed.

Lemma StronglySorted_firstn {A : Type} (R : A -> A -> Prop) (n : nat) (l : list A) :
  StronglySorted R l -> StronglySorted R (firstn n l).
Proof.
  intros H. rewrite <- (firstn_skipn n l) in H.
  apply StronglySorted_app_inv in H. tauto.
Qed.



Lemma topFlows_incl (flows : JSMap FlowEntry.t) (x : string * FlowEntry.t) :
  In x (topFlows flows) -> In x flows.
Proof.
  intros H. apply (sortBy_In cmpFlow). eapply In_firstn. exact H.
Qed.




Lemma buildTop_addresses (flows : JSMap FlowEntry.t) :
  map FlowRow.address (buildTop flows) = JSMap.keys (topFlows flows).
Proof.
  unfold buildTop, JSMap.keys. rewrite map_map. apply map_ext.
  intros [a e]. reflexivity.
Qed.





(** ** The Transfer handler *)

Module IndexerFacts.
Import Indexer.

Lemma accountId_inj (chainId : Z) (a1 a2 : string) :
  accountId chainId a1 = accountId chainId a2 -> a1 = a2.
Proof.
  unfold accountId. intros H.
  apply (inj (String.app _)) in H. apply (inj (String.app _)) in H. exact H.
Qed.

Lemma totalBalance_insert_fresh (table : gmap string Account.t) id account :
  table !! id = None ->
  totalBalance (<[id := account]> table) = Account.balance account + totalBalance table.
Proof.
  intros H. unfold totalBalance.
  apply (map_fold_insert_L (fun _ a acc => Account.balance a + acc)); [|exact H].
  intros. lia.
Qed.

Lemma totalBalance_insert (table : gmap string Account.t) id account :
  totalBalance (<[id := account]> table)
  = totalBalance table - default 0 (Account.balance <$> table !! id)
    + Account.balance account.
Proof.
  destruct (table !! id) as [old|] eqn:E; simpl.
  - rewrite <- insert_delete_eq.
    rewrite totalBalance_insert_fresh by apply lookup_delete_eq.
    unfold totalBalance at 2.
    rewrite (map_fold_delete_L (fun _ a acc => Account.balance a + acc) 0 id old table);
      [|intros; lia | exact E].
    fold (totalBalance (delete id table)). lia.
  - rewrite totalBalance_insert_fresh by exact E. lia.
Qed.

Lemma debitAccount_total event addr value table :
  totalBalance (debitAccount event addr value table) = totalBalance table - value.
Proof.
  unfold debitAccount. rewrite totalBalance_insert. simpl. lia.
Qed.

Lemma creditAccount_total event addr value table :
  totalBalance (creditAccount event addr value table) = totalBalance table + value.
Proof.
  unfold creditAccount. rewrite totalBalance_insert. simpl. lia.
Qed.

Lemma eqb_ZERO (a : string) : a <> ZERO_ADDRESS -> String.eqb a ZERO_ADDRESS = false.
Proof. intros H. apply String.eqb_neq. exact H. Qed.

End IndexerFacts.

(** C9. One run of the Transfer handler on the sum of all Account balances:
    a transfer between two distinct non-zero addresses leaves the sum as it
    was, the sender's balance going down by [value] and the receiver's up by
    [value]; a mint (from the zero address to an account) raises the sum by
    [value]; a burn (from an account to the zero address) lowers it by
    [value]. *)
Theorem handler_total_balance :
  forall (context : Indexer.Context) (event : Indexer.Event.t),
    let fromAddr := Str.toLowerCase (Indexer.Event.params_from event) in
    let toAddr := Str.toLowerCase (Indexer.Event.params_to event) in
    let value := Indexer.Event.params_value event in
    let chainId := Indexer.Event.chainId event in
    let context' := Indexer.handler context event in
    let total c := Indexer.totalBalance (Indexer.accounts c) in
    (fromAddr <> Indexer.ZERO_ADDRESS -> toAddr <> Indexer.ZERO_ADDRESS ->
     fromAddr <> toAddr ->
     total context' = total context
     /\ ledgerBalance context' chainId fromAddr = ledgerBalance context chainId fromAddr - value
     /\ ledgerBalance context' chainId toAddr = ledgerBalance context chainId toAddr + value)
    /\ (fromAddr = Indexer.ZERO_ADDRESS -> toAddr <> Indexer.ZERO_ADDRESS ->
        total context' = total context + value)
    /\ (fromAddr <> Indexer.ZERO_ADDRESS -> toAddr = Indexer.ZERO_ADDRESS ->
        total context' = total context - value).
Proof.
  intros context event fromAddr toAddr value chainId context' total.
  unfold context', total, Indexer.handler.
  fold fromAddr toAddr value. cbn [Indexer.accounts].
  split; [|split].
  - intros Hf Ht Hne.
    rewrite !IndexerFacts.eqb_ZERO by assumption. cbn [negb].
    split; [|split].
    + rewrite IndexerFacts.creditAccount_total, IndexerFacts.debitAccount_total. lia.
    + unfold ledgerBalance. cbn [Indexer.accounts].
      unfold Indexer.creditAccount.
      rewrite lookup_insert_ne
        by (intros E; apply IndexerFacts.accountId_inj in E; congruence).
      unfold Indexer.debitAccount. rewrite lookup_insert_eq. reflexivity.
    + unfold ledgerBalance. cbn [Indexer.accounts].
      unfold Indexer.creditAccount. rewrite lookup_insert_eq. simpl.
      unfold Indexer.debitAccount.
      rewrite lookup_insert_ne
        by (intros E; apply IndexerFacts.accountId_inj in E; congruence).
      reflexivity.
  - intros Hf Ht. rewrite Hf, String.eqb_refl.
    rewrite IndexerFacts.eqb_ZERO by assumption. cbn [negb].
    apply IndexerFacts.creditAccount_total.
  - intros Hf Ht. rewrite Ht, String.eqb_refl.
    rewrite IndexerFacts.eqb_ZERO by assumption. cbn [negb].
    apply IndexerFacts.debitAccount_total.
Qed.

Lemma handler_total_balance_witness :
  Indexer.totalBalance
    (Indexer.accounts
       (Indexer.handler (Indexer.mkContext ∅ ∅)
          (Indexer.Event.mk 100 7 1700000000 "0xfeed" 0 "0xAA" "0xBB" 5)))
  = Indexer.totalBalance (Indexer.accounts (Indexer.mkContext ∅ ∅)).
Proof.
  refine (proj1 (proj1 (handler_total_balance (Indexer.mkContext ∅ ∅)
            (Indexer.Event.mk 100 7 1700000000 "0xfeed" 0 "0xAA" "0xBB" 5)) _ _ _)).
  - vm_compute. discriminate.
  - vm_compute. discriminate.
  - vm_compute. discriminate.
Defined.

(** ** The zero address *)

Lemma lowerChar_idem (c : ascii) : Str.lowerChar (Str.lowerChar c) = Str.lowerChar c.
Proof. destruct c as [[] [] [] [] [] [] [] []]; reflexivity. Qed.

Lemma toLowerCase_idem (s : string) :
  Str.toLowerCase (Str.toLowerCase s) = Str.toLowerCase s.
Proof.
  induction s as [|c s IH]; [reflexivity|].
  cbn [Str.toLowerCase]. rewrite lowerChar_idem, IH. reflexivity.
Qed.

Lemma flows_not_ZERO (cutoff : Z) (ts : list TransferRow.t) :
  ~ In ZERO (JSMap.keys (fold_left (windowStep cutoff) ts [])).
Proof.
  intros Hin.
  assert (Hok : Forall flowEntryOk (fold_left (windowStep cutoff) ts []))
    by (apply fold_windowStep_ok; constructor).
  apply keys_get_Some in Hin as [e He]. apply get_In in He.
  rewrite Forall_forall in Hok. apply Hok in He as [Ht _].
  apply tracked_spec in Ht as [_ Hz]. apply Hz. reflexivity.
Qed.

Lemma buildTop_not_ZERO (cutoff : Z) (ts : list TransferRow.t) :
  ~ In ZERO (map FlowRow.address (buildTop (fold_left (windowStep cutoff) ts []))).
Proof.
  rewrite buildTop_addresses. intros Hin.
  apply (flows_not_ZERO cutoff ts).
  unfold JSMap.keys in *. apply in_map_iff in Hin as (p & Hp & Hin).
  apply in_map_iff. exists p. split; [exact Hp | apply topFlows_incl; exact Hin].
Qed.

Lemma addBalances_addresses (balances : JSMap Z) (rows : list FlowRow.t) :
  map SummaryRow.address (addBalances balances rows) = map FlowRow.address rows.
Proof.
  unfold addBalances. rewrite map_map. reflexivity.
Qed.

Lemma mergeHolder_keys (m : JSMap HolderEntry.t) (acct : AccountRow.t) (x : string) :
  In x (JSMap.keys (mergeHolder m acct)) <->
  x = Str.toLowerCase (AccountRow.address acct) \/ In x (JSMap.keys m).
Proof.
  unfold mergeHolder.
  destruct (JSMap.get m (Str.toLowerCase (AccountRow.address acct)));
    apply keys_set.
Qed.

Lemma mergeHolderPage_keys (rows : list AccountRow.t) (m : JSMap HolderEntry.t) (x : string) :
  In x (JSMap.keys (mergeHolderPage m rows)) <->
  In x (JSMap.keys m)
  \/ exists acct, In acct rows /\ x = Str.toLowerCase (AccountRow.address acct).
Proof.
  unfold mergeHolderPage. revert m. induction rows as [|r rows IH]; intros m; simpl.
  - split; [auto | intros [H|(a & [] & _)]; exact H].
  - rewrite IH, mergeHolder_keys. split.
    + intros [[->|H]|(a & Ha & ->)]; [right; exists r | left | right; exists a]; auto.
    + intros [H|(a & [<-|Ha] & ->)]; [left; right | left; left | right; exists a]; auto.
Qed.

Lemma mergeHolderPages_concat (pages : list (list AccountRow.t)) (m : JSMap HolderEntry.t) :
  fold_left mergeHolderPage pages m = mergeHolderPage m (concat pages).
Proof.
  revert m. induction pages as [|p pages IH]; intros m; simpl; [reflexivity|].
  rewrite IH. unfold mergeHolderPage. rewrite fold_left_app. reflexivity.
Qed.

Lemma rankHolders_addresses (m : JSMap HolderEntry.t) (x : string) :
  In x (map HolderRow.address (rankHolders m)) -> In x (JSMap.keys m).
Proof.
  unfold rankHolders, JSMap.keys. rewrite map_map.
  intros Hin. apply in_map_iff in Hin as ([a e] & Hx & Hin). simpl in Hx. subst x.
  apply In_firstn in Hin. apply (proj1 (sortBy_In cmpHolder _ _)) in Hin.
  apply in_map_iff. exists (a, e). split; [reflexivity | exact Hin].
Qed.

Module LedgerFacts.
Import Indexer.

Lemma handler_realAccount (context : Context) (event : Event.t) :
  map_Forall realAccount (accounts context) ->
  map_Forall realAccount (accounts (handler context event)).
Proof.
  intros H. unfold handler. cbn [accounts].
  set (fromAddr := Str.toLowerCase (Event.params_from event)).
  set (toAddr := Str.toLowerCase (Event.params_to event)).
  assert (H1 : map_Forall realAccount
                 (if negb (String.eqb fromAddr ZERO_ADDRESS)
                  then debitAccount event fromAddr (Event.params_value event)
                         (accounts context)
                  else accounts context)).
  { destruct (String.eqb fromAddr ZERO_ADDRESS) eqn:E; cbn [negb]; [exact H|].
    apply map_Forall_insert_2; [|exact H].
    split; cbn [Account.address];
      [apply String.eqb_neq; exact E | apply toLowerCase_idem]. }
  destruct (String.eqb toAddr ZERO_ADDRESS) eqn:E; cbn [negb]; [exact H1|].
  apply map_Forall_insert_2; [|exact H1].
  split; cbn [Account.address];
    [apply String.eqb_neq; exact E | apply toLowerCase_idem].
Qed.

Lemma index_realAccount (events : list Event.t) (context : Context) :
  map_Forall realAccount (accounts context) ->
  map_Forall realAccount (accounts (fold_left handler events context)).
Proof.
  revert context. induction events as [|ev events IH]; intros context H; simpl.
  - exact H.
  - apply IH, handler_realAccount, H.
Qed.
End LedgerFacts.

(** C3. The zero address is never an address of the 7-day ranking, of the
    30-day ranking (before and after the balances are attached), or of the
    top-holder ranking: the flow loop skips a zero-address side, and no
    Account row of the ledger the handler builds has the zero address, so
    that no page of Account rows served from that ledger has one. *)
Theorem zero_address_never_ranked :
  forall (now : Z) (allTransfers : list TransferRow.t) (balances : JSMap Z)
         (events : list Indexer.Event.t) (pages : list (list AccountRow.t)),
    servedFrom (Indexer.index events) pages ->
    let flows := computeFlows now allTransfers in
    ~ In ZERO (map FlowRow.address (buildTop (flows7d flows)))
    /\ ~ In ZERO (map FlowRow.address (buildTop (flows30d flows)))
    /\ ~ In ZERO (map SummaryRow.address (addBalances balances (buildTop (flows7d flows))))
    /\ ~ In ZERO (map SummaryRow.address (addBalances balances (buildTop (flows30d flows))))
    /\ ~ In ZERO (map HolderRow.address (rankHolders (mergeHolderPages pages)))
    /\ (forall id account,
           Indexer.accounts (Indexer.index events) !! id = Some account ->
           Indexer.Account.address account <> Indexer.ZERO_ADDRESS).
Proof.
  intros now ts balances events pages Hserved flows.
  unfold flows, computeFlows. rewrite computeFlows_fold. cbn [flows7d flows30d].
  rewrite !addBalances_addresses.
  assert (Hledger : map_Forall realAccount (Indexer.accounts (Indexer.index events))).
  { apply LedgerFacts.index_realAccount. cbn [Indexer.accounts]. apply map_Forall_empty. }
  repeat split; try apply buildTop_not_ZERO.
  - intros Hin. apply rankHolders_addresses in Hin.
    unfold mergeHolderPages in Hin. rewrite mergeHolderPages_concat in Hin.
    apply mergeHolderPage_keys in Hin as [[]|(acct & Hacct & Hz)].
    destruct (Hserved acct Hacct) as (id & account & Hlook & ->).
    apply Hledger in Hlook as [Hne Hlow].
    cbn [Indexer.accountRow AccountRow.address] in Hz.
    rewrite Hlow in Hz. apply Hne. symmetry. exact Hz.
  - intros id account Hlook. apply Hledger in Hlook as [Hne _]. exact Hne.
Qed.

Lemma zero_address_never_ranked_witness :
  ~ In ZERO
      (map HolderRow.address
         (rankHolders
            (mergeHolderPages
               [[AccountRow.mk "0xbb" 100 5 1]]))).
Proof.
  refine (proj1 (proj2 (proj2 (proj2 (proj2
            (zero_address_never_ranked 0 [] []
               [Indexer.Event.mk 100 7 1700000000 "0xfeed" 0
                  "0x0000000000000000000000000000000000000000" "0xBB" 5]
               [[AccountRow.mk "0xbb" 100 5 1]] _)))))).
  intros row [<-|[]].
  exists "100_0xbb", (Indexer.Account.mk "100_0xbb" 100 "0xbb" 5 1 7 1700000000).
  split; vm_compute; reflexivity.
Defined.

(** ** The top-holder merge *)

Lemma mergeHolder_absorb (m : JSMap HolderEntry.t) (acct : AccountRow.t) :
  mergeHolder m acct
  = JSMap.set m (Str.toLowerCase (AccountRow.address acct))
      (absorb (JSMap.get m (Str.toLowerCase (AccountRow.address acct))) acct).
Proof.
  unfold mergeHolder, absorb.
  destruct (JSMap.get m (Str.toLowerCase (AccountRow.address acct))); reflexivity.
Qed.

Lemma mergeHolderPage_get (rows : list AccountRow.t) (m : JSMap HolderEntry.t) (a : string) :
  JSMap.get (mergeHolderPage m rows) a
  = fold_left (fun o r => Some (absorb o r)) (rowsOf a rows) (JSMap.get m a).
Proof.
  unfold mergeHolderPage. revert m. induction rows as [|r rows IH]; intros m.
  - reflexivity.
  - cbn [fold_left rowsOf filter]. rewrite IH, mergeHolder_absorb.
    destruct (String.eqb (Str.toLowerCase (AccountRow.address r)) a) eqn:E.
    + apply String.eqb_eq in E. subst a. rewrite get_set_eq. reflexivity.
    + apply String.eqb_neq in E. rewrite get_set_ne by exact E. reflexivity.
Qed.

Lemma absorb_fold_Some (rows : list AccountRow.t) (e0 : HolderEntry.t) :
  exists e,
    fold_left (fun o r => Some (absorb o r)) rows (Some e0) = Some e
    /\ HolderEntry.balance e = HolderEntry.balance e0 + sumBalance rows
    /\ HolderEntry.transferCount e = HolderEntry.transferCount e0 + sumCount rows
    /\ (forall c, In c (HolderEntry.chains e) <->
                  In c (HolderEntry.chains e0)
                  \/ exists r, In r rows /\ chainName (AccountRow.chainId r) = c).
Proof.
  revert e0. induction rows as [|r rows IH]; intros e0.
  - exists e0. cbn. repeat split; try lia; [auto | intros [H|(r & [] & _)]; exact H].
  - cbn [fold_left].
    destruct (IH (absorb (Some e0) r)) as (e & He & Hb & Hc & Hs).
    exists e. split; [exact He|].
    cbn [absorb HolderEntry.balance HolderEntry.transferCount HolderEntry.chains] in Hb, Hc, Hs.
    cbn [sumBalance sumCount fold_right]. fold (sumBalance rows) (sumCount rows).
    split; [lia | split; [lia|]].
    intros c. rewrite Hs, JSSet_add_In. split.
    + intros [[->|H]|(r' & Hr' & Hc')];
        [right; exists r; split; [left|]; reflexivity | left; exact H
        | right; exists r'; split; [right|]; assumption].
    + intros [H|(r' & [<-|Hr'] & Hc')];
        [left; right; exact H | left; left; symmetry; exact Hc'
        | right; exists r'; split; assumption].
Qed.

Lemma absorb_fold (rows : list AccountRow.t) :
  sumsRows rows (fold_left (fun o r => Some (absorb o r)) rows None).
Proof.
  destruct rows as [|r rows]; [exact I|].
  cbn [fold_left].
  destruct (absorb_fold_Some rows (absorb None r)) as (e & He & Hb & Hc & Hs).
  rewrite He. cbn [sumsRows].
  cbn [absorb HolderEntry.balance HolderEntry.transferCount HolderEntry.chains] in Hb, Hc, Hs.
  cbn [sumBalance sumCount fold_right]. fold (sumBalance rows) (sumCount rows).
  split; [lia | split; [lia|]].
  intros c. rewrite Hs. split.
  + intros [[<-|[]]|(r' & Hr' & Hc')];
      [exists r; split; [left|]; reflexivity | exists r'; split; [right|]; assumption].
  + intros (r' & [<-|Hr'] & Hc');
      [left; left; exact Hc' | right; exists r'; split; assumption].
Qed.

(** The merged entry of an address is the sum of the rows of that address. *)
Lemma mergeHolderPage_sums (rows : list AccountRow.t) (a : string) :
  sumsRows (rowsOf a rows) (JSMap.get (mergeHolderPage [] rows) a).
Proof.
  rewrite mergeHolderPage_get. apply absorb_fold.
Qed.

Lemma rowsOf_perm (a : string) (rows rows' : list AccountRow.t) :
  Permutation rows rows' -> Permutation (rowsOf a rows) (rowsOf a rows').
Proof.
  unfold rowsOf. induction 1 as [|x l l' _ IH|x y l|l l' l'' _ IH1 _ IH2]; cbn [filter].
  - constructor.
  - destruct (String.eqb _ a); [constructor|]; exact IH.
  - destruct (String.eqb (Str.toLowerCase (AccountRow.address x)) a);
      destruct (String.eqb (Str.toLowerCase (AccountRow.address y)) a);
      try reflexivity. apply perm_swap.
  - etransitivity; eassumption.
Qed.

Lemma sumBalance_perm (rows rows' : list AccountRow.t) :
  Permutation rows rows' -> sumBalance rows = sumBalance rows'.
Proof.
  unfold sumBalance.
  induction 1 as [|x l l' _ IH|x y l|l l' l'' _ IH1 _ IH2]; cbn [fold_right]; lia.
Qed.

Lemma sumCount_perm (rows rows' : list AccountRow.t) :
  Permutation rows rows' -> sumCount rows = sumCount rows'.
Proof.
  unfold sumCount.
  induction 1 as [|x l l' _ IH|x y l|l l' l'' _ IH1 _ IH2]; cbn [fold_right]; lia.
Qed.

Lemma sumsRows_perm (rows rows' : list AccountRow.t) (o o' : option HolderEntry.t) :
  Permutation rows rows' -> sumsRows rows o -> sumsRows rows' o' -> sameHolder o o'.
Proof.
  intros Hp H H'.
  destruct rows as [|r rows].
  - apply Permutation_nil in Hp. subst rows'.
    destruct o, o'; cbn in *; tauto.
  - destruct rows' as [|r' rows'];
      [symmetry in Hp; apply Permutation_nil in Hp; discriminate|].
    destruct o as [e|], o' as [e'|]; cbn [sumsRows] in H, H'; try contradiction.
    destruct H as (Hb & Hc & Hs), H' as (Hb' & Hc' & Hs').
    cbn [sameHolder]. split; [|split].
    + rewrite Hb, Hb'. apply sumBalance_perm, Hp.
    + rewrite Hc, Hc'. apply sumCount_perm, Hp.
    + intros c. rewrite Hs, Hs'. split; intros (x & Hx & Hxc); exists x; split;
        try exact Hxc; [apply (Permutation_in _ Hp) | apply (Permutation_in _ (Permutation_sym Hp))];
        exact Hx.
Qed.

(** ** Runs *)

Lemma steady_refl (w : World) : steady w w.
Proof. unfold steady. repeat split; lia. Qed.

Lemma yields_ret {A : Type} (a : A) (w : World) (Q : A -> Prop) :
  Q a -> yields (ret a) w Q.
Proof.
  intros H. unfold yields, ret. split; [apply steady_refl|].
  split; [|exact H]. intros i Hi. lia.
Qed.

Lemma yields_weaken {A : Type} (m : M A) (w : World) (Q Q' : A -> Prop) :
  yields m w Q -> (forall a, Q a -> Q' a) -> yields m w Q'.
Proof.
  unfold yields. destruct (m w) as [[a|err|] w']; intros [Hs H] HQ;
    (split; [exact Hs|]); [|exact H | exact H].
  destruct H as [Hq Ha]. split; [exact Hq | apply HQ, Ha].
Qed.

Lemma yields_bind {A B : Type} (m : M A) (k : A -> M B) (w : World)
    (Q : A -> Prop) (R : B -> Prop) :
  yields m w Q ->
  (forall a w', steady w w' -> Q a -> yields (k a) w' R) ->
  yields (bind m k) w R.
Proof.
  unfold yields at 1 3, bind. destruct (m w) as [[a|err|] w1]; intros [Hs H] Hk.
  - destruct H as [Hq Ha]. specialize (Hk a w1 Hs Ha). unfold yields in Hk.
    destruct (k a w1) as [o w2]. destruct Hk as [Hs2 H2].
    destruct Hs as (S1 & S2 & S3 & S4 & S5 & S6 & S7).
    destruct Hs2 as (T1 & T2 & T3 & T4 & T5 & T6 & T7).
    split; [unfold steady; repeat split; try congruence; lia|].
    destruct o as [b|err|]; [|exact H2 || idtac | exact H2].
    + destruct H2 as [Hq2 Hb]. split; [|exact Hb].
      intros i Hi. destruct (le_lt_dec (requests w1) i) as [Hle|Hlt].
      * rewrite <- S2. apply Hq2. lia.
      * apply Hq. lia.
    + destruct H2 as (i & Hi & Hf). exists i. split; [lia|].
      rewrite <- S2. exact Hf.
  - split; [exact Hs | exact H].
  - contradiction.
Qed.

Lemma yields_graphqlQuery {D : Type} (q : Query D) (w : World) :
  yields (graphqlQuery q) w (fun d => d = answer (store w) q).
Proof.
  unfold yields, graphqlQuery, bind, fetch.
  assert (Hs : steady w (mkWorld (store w) (faults w) (S (requests w)) (dateNow w)
                           (isoString w) (labelsFile w) (document w))).
  { unfold steady. cbn. repeat split; lia. }
  assert (Hi : (requests w <= requests w < S (requests w))%nat) by lia.
  destruct (faults w (requests w)) as [[|status|]|] eqn:E; cbn.
  - split; [exact Hs|]. exists (requests w). split; [exact Hi | congruence].
  - split; [exact Hs|]. exists (requests w). split; [exact Hi | congruence].
  - split; [exact Hs|]. exists (requests w). split; [exact Hi | congruence].
  - split; [exact Hs|]. split; [|reflexivity].
    intros i Hi'. cbn in Hi'. assert (i = requests w) by lia. subst i. exact E.
Qed.

Lemma firstn_short {A : Type} (n : nat) (l : list A) :
  (length (firstn n l) < n)%nat -> firstn n l = l.
Proof.
  intros H. apply firstn_all2. rewrite length_firstn in H. lia.
Qed.

Lemma firstn_full {A : Type} (n : nat) (l : list A) :
  ~ (length (firstn n l) < n)%nat -> (n <= length l)%nat.
Proof.
  intros H. rewrite length_firstn in H. lia.
Qed.

Lemma skipn_add {A : Type} (offset limit : Z) (l : list A) :
  0 <= offset -> 0 <= limit ->
  skipn (Z.to_nat (offset + limit)) l = skipn (Z.to_nat limit) (skipn (Z.to_nat offset) l).
Proof.
  intros Ho Hl. rewrite skipn_skipn. f_equal. lia.
Qed.

Lemma yields_fetchHolderPages (rows : list AccountRow.t) (limit : Z) (fuel : nat) :
  1 <= limit ->
  forall (offset : Z) (m : JSMap HolderEntry.t) (w : World),
    Store.positiveAccounts (store w) = rows ->
    0 <= offset ->
    (length (skipn (Z.to_nat offset) rows) < fuel)%nat ->
    yields (fetchHolderPages fuel limit offset m) w
      (fun r => r = mergeHolderPage m (skipn (Z.to_nat offset) rows)).
Proof.
  intros Hlimit. induction fuel as [|fuel IH]; intros offset m w Hrows Hoff Hfuel; [lia|].
  cbn [fetchHolderPages].
  eapply yields_bind; [apply yields_graphqlQuery|].
  intros accounts w' Hs ->. cbn [answer]. rewrite Hrows. unfold page.
  set (rest := skipn (Z.to_nat offset) rows) in *.
  destruct (Z.of_nat (length (firstn (Z.to_nat limit) rest)) <? limit) eqn:E.
  - apply Z.ltb_lt in E. apply yields_ret.
    rewrite firstn_short by lia. reflexivity.
  - apply Z.ltb_ge in E.
    assert (Hfull : (Z.to_nat limit <= length rest)%nat) by (apply firstn_full; lia).
    eapply yields_weaken.
    + apply IH; [destruct Hs as (-> & _); exact Hrows | lia |].
      rewrite skipn_add by lia. fold rest. rewrite length_skipn. lia.
    + intros r ->. rewrite skipn_add by lia. fold rest.
      unfold mergeHolderPage. rewrite <- fold_left_app, firstn_skipn. reflexivity.
Qed.

Lemma yields_fetchTransfers (rows : list TransferRow.t) (cutoff limit : Z) (fuel : nat) :
  1 <= limit ->
  forall (offset : Z) (allTransfers : list TransferRow.t) (w : World),
    Store.transfersSince (store w) cutoff = rows ->
    0 <= offset ->
    (length (skipn (Z.to_nat offset) rows) < fuel)%nat ->
    yields (fetchTransfers fuel cutoff limit offset allTransfers) w
      (fun r => r = allTransfers ++ skipn (Z.to_nat offset) rows).
Proof.
  intros Hlimit. induction fuel as [|fuel IH];
    intros offset allTransfers w Hrows Hoff Hfuel; [lia|].
  cbn [fetchTransfers].
  eapply yields_bind; [apply yields_graphqlQuery|].
  intros batch w' Hs ->. cbn [answer]. rewrite Hrows. unfold page.
  set (rest := skipn (Z.to_nat offset) rows) in *.
  destruct (Z.of_nat (length (firstn (Z.to_nat limit) rest)) <? limit) eqn:E.
  - apply Z.ltb_lt in E. apply yields_ret.
    rewrite firstn_short by lia. reflexivity.
  - apply Z.ltb_ge in E.
    assert (Hfull : (Z.to_nat limit <= length rest)%nat) by (apply firstn_full; lia).
    eapply yields_weaken.
    + apply IH; [destruct Hs as (-> & _); exact Hrows | lia |].
      rewrite skipn_add by lia. fold rest. rewrite length_skipn. lia.
    + intros r ->. rewrite skipn_add by lia. fold rest.
      rewrite <- app_assoc, firstn_skipn. reflexivity.
Qed.

Lemma yields_fetchBalancesFrom (addresses : list string) (fuel : nat) :
  forall (i : Z) (m : JSMap Z) (w : World),
    0 <= i ->
    (length addresses - Z.to_nat i < fuel)%nat ->
    yields (fetchBalancesFrom fuel addresses i m) w
      (fun r => r = balancesFrom fuel (store w) addresses i m).
Proof.
  induction fuel as [|fuel IH]; intros i m w Hi Hfuel; [lia|].
  cbn [fetchBalancesFrom balancesFrom].
  destruct (i <? Z.of_nat (length addresses)) eqn:E.
  - apply Z.ltb_lt in E.
    eapply yields_bind; [apply yields_graphqlQuery|].
    intros accounts w' Hs ->. cbn [answer].
    eapply yields_weaken.
    + apply IH; lia.
    + intros r ->. destruct Hs as (-> & _). reflexivity.
  - apply yields_ret. reflexivity.
Qed.

Lemma yields_pure {A : Type} (f : World -> A) (w : World) :
  yields (fun w0 => (Ok (f w0), w0)) w (fun a => a = f w).
Proof.
  unfold yields. split; [apply steady_refl|]. split; [|reflexivity].
  intros i Hi. lia.
Qed.

Lemma yields_fetchTopHolders (rows : list AccountRow.t) (w : World) (fuel : nat) :
  Store.positiveAccounts (store w) = rows ->
  (length rows < fuel)%nat ->
  yields (fetchTopHolders fuel) w
    (fun r => r = rankHolders (mergeHolderPage [] rows)).
Proof.
  intros Hrows Hfuel. unfold fetchTopHolders.
  eapply yields_bind.
  - apply (yields_fetchHolderPages rows); [lia | exact Hrows | lia |].
    change (Z.to_nat 0) with 0%nat. rewrite skipn_O. exact Hfuel.
  - intros holderMap w' _ ->. change (Z.to_nat 0) with 0%nat. rewrite skipn_O.
    apply yields_ret. reflexivity.
Qed.

Lemma yields_composeSummary (w : World) (fuel : nat) :
  (enoughFuel w <= fuel)%nat ->
  yields (composeSummary fuel) w (fun s => s = expectedSummary fuel w).
Proof.
  unfold enoughFuel. intros Hfuel. unfold composeSummary.
  eapply yields_bind; [apply (yields_pure (fun w0 => dateNow w0 / 1000))|].
  intros now w1 (S1 & _ & _ & I1 & L1 & _) ->.
  set (now := dateNow w / 1000) in *.
  set (rows := Store.transfersSince (store w) (cutoff30d now)) in *.
  eapply yields_bind.
  { apply (yields_fetchTransfers rows); [lia | rewrite S1; reflexivity | lia |].
    change (Z.to_nat 0) with 0%nat. rewrite ?skipn_O. lia. }
  intros allTransfers w2 (S2 & _ & _ & I2 & L2 & _) ->.
  change (Z.to_nat 0) with 0%nat. rewrite skipn_O. cbn [app].
  eapply yields_bind; [apply yields_graphqlQuery|].
  intros totalTransfers w3 (S3 & _ & _ & I3 & L3 & _) ->. cbn [answer].
  set (flows := computeFlows now rows) in *.
  set (addrs := rankedAddresses (buildTop (flows7d flows)) (buildTop (flows30d flows))) in *.
  eapply yields_bind.
  { apply (yields_fetchBalancesFrom addrs); lia. }
  intros balances w4 (S4 & _ & _ & I4 & L4 & _) ->.
  eapply yields_bind.
  { apply (yields_fetchTopHolders (Store.positiveAccounts (store w))); [|lia].
    rewrite S4, S3, S2, S1. reflexivity. }
  intros topHolders w5 (S5 & _ & _ & I5 & L5 & _) ->. change (Z.to_nat 0) with 0%nat. rewrite ?skipn_O.
  eapply yields_bind; [apply (yields_pure (fun w0 => labelsOf (labelsFile w0)))|].
  intros labels w6 (S6 & _ & _ & I6 & L6 & _) ->.
  eapply yields_bind; [apply (yields_pure isoString)|].
  intros synced_at w7 _ ->.
  apply yields_ret. unfold expectedSummary.
  fold now rows flows addrs.
  rewrite I6, I5, I4, I3, I2, I1, L5, L4, L3, L2, L1, S3, S2, S1. reflexivity.
Qed.

(** What a run does, given fuel for its loops. *)
Lemma run_spec (w : World) (fuel : nat) :
  (enoughFuel w <= fuel)%nat ->
  exists code w',
    run fuel w = Some (code, w')
    /\ ((code = 0 /\ quietBetween w w'
         /\ document w' = Some (expectedSummary fuel w))
        \/ (code = 1 /\ faultBetween w w' /\ document w' = document w)).
Proof.
  intros Hfuel. pose proof (yields_composeSummary w fuel Hfuel) as H.
  unfold yields in H. unfold run, main, bind.
  destruct (composeSummary fuel w) as [[s|err|] w1]; destruct H as [Hs H].
  - destruct H as [Hq ->]. cbn.
    eexists 0, _. split; [reflexivity|]. left.
    split; [reflexivity | split; [exact Hq | reflexivity]].
  - exists 1, w1. split; [reflexivity|]. right.
    split; [reflexivity | split; [exact H|]].
    destruct Hs as (_ & _ & _ & _ & _ & Hd & _). exact Hd.
  - contradiction.
Qed.

(** C5. The merge of [fetchTopHolders] does not depend on where the page
    boundaries fall: two sequences of pages with the same rows in the same
    order give the same map; two sequences of pages with the same multiset of
    rows give, for every address, the same summed balance, the same summed
    transfer count and the same set of chain names; and the paging loop
    itself, run against a store that answers every request, returns the merge
    of all rows whatever the page size (1, 5000 or any other positive one). *)
Theorem holder_merge_page_boundaries :
  (forall pages1 pages2 : list (list AccountRow.t),
      (concat pages1 = concat pages2 ->
       mergeHolderPages pages1 = mergeHolderPages pages2)
      /\ (Permutation (concat pages1) (concat pages2) ->
          forall a,
            sameHolder (JSMap.get (mergeHolderPages pages1) a)
                       (JSMap.get (mergeHolderPages pages2) a)))
  /\ (forall (w : World) (limit1 limit2 : Z) (fuel : nat),
         1 <= limit1 -> 1 <= limit2 ->
         (forall i, faults w i = None) ->
         (length (Store.positiveAccounts (store w)) < fuel)%nat ->
         fst (fetchHolderPages fuel limit1 0 [] w)
         = Ok (mergeHolderPage [] (Store.positiveAccounts (store w)))
         /\ fst (fetchHolderPages fuel limit2 0 [] w)
            = fst (fetchHolderPages fuel limit1 0 [] w)).
Proof.
  split.
  - intros pages1 pages2. unfold mergeHolderPages.
    rewrite !mergeHolderPages_concat. split.
    + intros ->. reflexivity.
    + intros Hp a.
      eapply sumsRows_perm; [apply (rowsOf_perm a), Hp | |];
        apply mergeHolderPage_sums.
  - intros w limit1 limit2 fuel H1 H2 Hquiet Hfuel.
    assert (Hloop : forall limit, 1 <= limit ->
              fst (fetchHolderPages fuel limit 0 [] w)
              = Ok (mergeHolderPage [] (Store.positiveAccounts (store w)))).
    { intros limit Hl.
      pose proof (yields_fetchHolderPages (Store.positiveAccounts (store w))
                    limit fuel Hl 0 [] w eq_refl (Z.le_refl 0)) as H.
      change (Z.to_nat 0) with 0%nat in H. rewrite skipn_O in H.
      specialize (H Hfuel). unfold yields in H.
      destruct (fetchHolderPages fuel limit 0 [] w) as [[r|err|] w']; cbn [fst].
      - destruct H as (_ & _ & ->). reflexivity.
      - destruct H as (_ & i & _ & Hf). exfalso. apply Hf, Hquiet.
      - destruct H as [_ []]. }
    rewrite !Hloop by assumption. split; reflexivity.
Qed.

Lemma holder_merge_page_boundaries_witness :
  mergeHolderPages
    [[AccountRow.mk "0xAA" 1 30 2]; [AccountRow.mk "0xbb" 100 20 1];
     [AccountRow.mk "0xaa" 100 10 4]]
  = mergeHolderPages
      [[AccountRow.mk "0xAA" 1 30 2; AccountRow.mk "0xbb" 100 20 1;
        AccountRow.mk "0xaa" 100 10 4]].
Proof.
  refine (proj1 (proj1 holder_merge_page_boundaries
            [[AccountRow.mk "0xAA" 1 30 2]; [AccountRow.mk "0xbb" 100 20 1];
             [AccountRow.mk "0xaa" 100 10 4]]
            [[AccountRow.mk "0xAA" 1 30 2; AccountRow.mk "0xbb" 100 20 1;
              AccountRow.mk "0xaa" 100 10 4]]) _).
  reflexivity.
Defined.

(** ** Chain names *)















(** ** Balance enrichment *)

Lemma mergeBalancePage_other (accounts : list AccountRow.t) (m : JSMap Z) (a : string) :
  (forall acct, In acct accounts -> Str.toLowerCase (AccountRow.address acct) <> a) ->
  JSMap.get (mergeBalancePage m accounts) a = JSMap.get m a.
Proof.
  unfold mergeBalancePage. revert m.
  induction accounts as [|acct accounts IH]; intros m H; [reflexivity|].
  cbn [fold_left]. rewrite IH by (intros x Hx; apply H; right; exact Hx).
  unfold mergeBalance. apply get_set_ne. apply H. left. reflexivity.
Qed.

Lemma mergeBalancePages_other (pages : list (list AccountRow.t)) (m : JSMap Z) (a : string) :
  (forall acct, In acct (concat pages) -> Str.toLowerCase (AccountRow.address acct) <> a) ->
  JSMap.get (fold_left mergeBalancePage pages m) a = JSMap.get m a.
Proof.
  revert m. induction pages as [|p pages IH]; intros m H; [reflexivity|].
  cbn [fold_left]. cbn [concat] in H.
  rewrite IH by (intros x Hx; apply H, in_or_app; right; exact Hx).
  apply mergeBalancePage_other. intros x Hx. apply H, in_or_app. left. exact Hx.
Qed.

Lemma balancesFrom_other (fuel : nat) (s : Store.t) (addresses : list string) (a : string) :
  noAccountRow s a ->
  forall (i : Z) (m : JSMap Z),
    JSMap.get (balancesFrom fuel s addresses i m) a = JSMap.get m a.
Proof.
  intros Hno. induction fuel as [|fuel IH]; intros i m; [reflexivity|].
  cbn [balancesFrom]. destruct (i <? Z.of_nat (length addresses)); [|reflexivity].
  rewrite IH. apply mergeBalancePage_other. intros acct Hin. eapply Hno, Hin.
Qed.

Lemma addBalances_zero (balances : JSMap Z) (rows : list FlowRow.t) (row : SummaryRow.t) :
  In row (addBalances balances rows) ->
  JSMap.get balances (SummaryRow.address row) = None ->
  SummaryRow.balance row = "0".
Proof.
  unfold addBalances. intros Hin Hget.
  apply in_map_iff in Hin as (r & <- & _).
  cbn [SummaryRow.balance SummaryRow.address] in *.
  unfold balanceOrZero. rewrite Hget. reflexivity.
Qed.

(** C8. A ranked address for which the store returns no Account row gets
    the balance field ["0"]: [fetchBalances] only merges returned rows, so
    the balance map has no entry for it, and [addBalances] renders an absent
    entry as zero. This holds for the merge over any returned pages, and for
    the document a successful run writes. *)
Theorem missing_balance_is_zero :
  (forall (pages : list (list AccountRow.t)) (rows : list FlowRow.t) (row : SummaryRow.t),
      In row (addBalances (fold_left mergeBalancePage pages []) rows) ->
      (forall acct, In acct (concat pages) ->
                    Str.toLowerCase (AccountRow.address acct) <> SummaryRow.address row) ->
      SummaryRow.balance row = "0"
      /\ exists r, In r rows /\ FlowRow.address r = SummaryRow.address row)
  /\ (forall (w w' : World) (fuel : nat) (summary : Summary.t) (row : SummaryRow.t),
         (enoughFuel w <= fuel)%nat ->
         run fuel w = Some (0, w') ->
         document w' = Some summary ->
         In row (Summary.top_7d summary) \/ In row (Summary.top_30d summary) ->
         noAccountRow (store w) (SummaryRow.address row) ->
         SummaryRow.balance row = "0").
Proof.
  split.
  - intros pages rows row Hin Hno. split.
    + eapply addBalances_zero; [exact Hin|].
      rewrite mergeBalancePages_other by exact Hno. reflexivity.
    + unfold addBalances in Hin. apply in_map_iff in Hin as (r & <- & Hr).
      exists r. split; [exact Hr | reflexivity].
  - intros w w' fuel summary row Hfuel Hrun Hdoc Hin Hno.
    destruct (run_spec w fuel Hfuel) as (code & w1 & Hrun1 & H).
    rewrite Hrun in Hrun1. injection Hrun1 as <- <-.
    destruct H as [(_ & _ & Hd)|(Hc & _)]; [|discriminate Hc].
    rewrite Hdoc in Hd. injection Hd as ->.
    unfold expectedSummary in Hin. cbn [Summary.top_7d Summary.top_30d] in Hin.
    destruct Hin as [Hin|Hin];
      (eapply addBalances_zero; [exact Hin|]);
      rewrite balancesFrom_other by exact Hno; reflexivity.
Qed.

Lemma missing_balance_is_zero_witness :
  SummaryRow.balance
    (SummaryRow.mk "0xcc" "40" "0" "40" 1 ["ethereum"] "0") = "0"
  /\ exists r,
       In r [FlowRow.mk "0xcc" "40" "0" "40" 1 ["ethereum"]]
       /\ FlowRow.address r = "0xcc".
Proof.
  refine (proj1 missing_balance_is_zero
            [[AccountRow.mk "0xAA" 1 30000000000000000000 2]]
            [FlowRow.mk "0xcc" "40" "0" "40" 1 ["ethereum"]]
            (SummaryRow.mk "0xcc" "40" "0" "40" 1 ["ethereum"] "0") _ _).
  - left. vm_compute. reflexivity.
  - intros acct [<-|[]]. vm_compute. discriminate.
Defined.

(** ** Runs: all or nothing *)



(** * Further properties *)

(** ** Reading rendered amounts back *)

Lemma isDigit_not_dot (c : ascii) : Str.isDigit c = true -> Ascii.eqb c "."%char = false.
Proof.
  intros H. destruct (Ascii.eqb c ".") eqn:E; [|reflexivity].
  apply Ascii.eqb_eq in E. subst c. discriminate H.
Qed.

Lemma isDigit_not_minus (c : ascii) : Str.isDigit c = true -> Ascii.eqb c "-"%char = false.
Proof.
  intros H. destruct (Ascii.eqb c "-") eqn:E; [|reflexivity].
  apply Ascii.eqb_eq in E. subst c. discriminate H.
Qed.

Lemma splitDot_digits (ip rest : string) :
  Str.allDigits ip = true ->
  splitDot (ip +:+ rest) = (ip +:+ fst (splitDot rest), snd (splitDot rest)).
Proof.
  induction ip as [|c ip IH]; intros H.
  - rewrite !str_app_nil_l. destruct (splitDot rest). reflexivity.
  - cbn [Str.allDigits] in H. apply andb_true_iff in H as [Hc Hip].
    rewrite !str_app_cons. cbn [splitDot].
    rewrite (isDigit_not_dot c Hc), (IH Hip). reflexivity.
Qed.

Lemma magnitudeOf_rendered (ip fp : string) :
  Str.allDigits ip = true ->
  magnitudeOf (ip +:+ match fp with EmptyString => "" | _ => "." +:+ fp end)
  = Str.digitsValue ip * 10 ^ 18
    + Str.digitsValue fp * 10 ^ (18 - Z.of_nat (String.length fp)).
Proof.
  intros H. unfold magnitudeOf. rewrite (splitDot_digits _ _ H).
  destruct fp as [|c fp].
  - cbn [splitDot fst snd]. rewrite str_app_nil_r. reflexivity.
  - change ("." +:+ String c fp) with (String "."%char (String c fp)).
    cbn [splitDot]. rewrite Ascii.eqb_refl. cbn [fst snd].
    rewrite str_app_nil_r. reflexivity.
Qed.

Lemma fromDecimalString_rendered (raw : Z) :
  fromDecimalString (bigintToDecimalString raw) = raw.
Proof.
  destruct (bigintToDecimalString_minimal raw)
    as (ip & fp & Hs & Iall & Ine & _ & Ival & _ & _ & _ & Fval & _).
  rewrite Hs.
  assert (Hmag : magnitudeOf (ip +:+ match fp with EmptyString => "" | _ => "." +:+ fp end)
                 = Z.abs raw).
  { rewrite magnitudeOf_rendered by exact Iall. rewrite Ival, Fval.
    assert (0 < 10 ^ 18) by (apply Z.pow_pos_nonneg; lia).
    pose proof (Z.div_mod (Z.abs raw) (10 ^ 18)). lia. }
  destruct (raw <? 0) eqn:E.
  - apply Z.ltb_lt in E.
    change ("-" +:+ ?x) with (String "-"%char x).
    cbn [fromDecimalString]. rewrite Ascii.eqb_refl, Hmag. lia.
  - apply Z.ltb_ge in E. rewrite str_app_nil_l.
    destruct ip as [|c ip]; [contradiction|].
    cbn [Str.allDigits] in Iall. apply andb_true_iff in Iall as [Hc _].
    rewrite str_app_cons in *. cbn [fromDecimalString].
    rewrite (isDigit_not_minus c Hc), Hmag. lia.
Qed.

(** X1. A rendered amount determines the integer it was rendered from:
    reading the string back gives the integer, so two different integers
    never render to the same string. *)
Theorem bigintToDecimalString_injective :
  (forall raw : Z, fromDecimalString (bigintToDecimalString raw) = raw)
  /\ (forall a b : Z, bigintToDecimalString a = bigintToDecimalString b -> a = b).
Proof.
  split; [exact fromDecimalString_rendered|].
  intros a b H.
  rewrite <- (fromDecimalString_rendered a), <- (fromDecimalString_rendered b), H.
  reflexivity.
Qed.

Lemma bigintToDecimalString_injective_witness :
  1500000000000000000 = 1500000000000000000.
Proof.
  refine (proj2 bigintToDecimalString_injective
            1500000000000000000 1500000000000000000 _).
  reflexivity.
Defined.

(** ** What the flow maps hold *)

Lemma debit_entryOf_eq flows a value chain :
  let e := entryOf flows a in
  let e' := entryOf (debit flows a value chain) a in
  FlowEntry.inflow e' = FlowEntry.inflow e
  /\ FlowEntry.outflow e' = FlowEntry.outflow e + value
  /\ FlowEntry.count e' = FlowEntry.count e + 1.
Proof.
  unfold entryOf, debit. rewrite get_set_eq. cbn. repeat split.
Qed.

Lemma credit_entryOf_eq flows a value chain :
  let e := entryOf flows a in
  let e' := entryOf (credit flows a value chain) a in
  FlowEntry.inflow e' = FlowEntry.inflow e + value
  /\ FlowEntry.outflow e' = FlowEntry.outflow e
  /\ FlowEntry.count e' = FlowEntry.count e + 1.
Proof.
  unfold entryOf, credit. rewrite get_set_eq. cbn. repeat split.
Qed.

Lemma debit_entryOf_ne flows x a value chain :
  x <> a -> entryOf (debit flows x value chain) a = entryOf flows a.
Proof.
  intros H. unfold entryOf, debit. rewrite get_set_ne by exact H. reflexivity.
Qed.

Lemma credit_entryOf_ne flows x a value chain :
  x <> a -> entryOf (credit flows x value chain) a = entryOf flows a.
Proof.
  intros H. unfold entryOf, credit. rewrite get_set_ne by exact H. reflexivity.
Qed.

(** One pass of the inner loop, seen from the entry of a tracked address. *)
Lemma windowStep_entryOf cutoff flows t a :
  tracked a = true ->
  let inWindow := cutoff <=? TransferRow.blockTimestamp t in
  let isFrom := inWindow && String.eqb (Str.toLowerCase (TransferRow.from t)) a in
  let isTo := inWindow && String.eqb (Str.toLowerCase (TransferRow.to t)) a in
  let e := entryOf flows a in
  let e' := entryOf (windowStep cutoff flows t) a in
  FlowEntry.inflow e' = FlowEntry.inflow e + (if isTo then TransferRow.value t else 0)
  /\ FlowEntry.outflow e' = FlowEntry.outflow e + (if isFrom then TransferRow.value t else 0)
  /\ FlowEntry.count e' = FlowEntry.count e + (if isFrom then 1 else 0) + (if isTo then 1 else 0).
Proof.
  intros Ht. cbv zeta. unfold windowStep.
  destruct (TransferRow.blockTimestamp t <? cutoff) eqn:E.
  - apply Z.ltb_lt in E.
    assert (Hw : (cutoff <=? TransferRow.blockTimestamp t) = false) by (apply Z.leb_gt; lia).
    rewrite Hw. cbn [andb]. repeat split; lia.
  - apply Z.ltb_ge in E.
    assert (Hw : (cutoff <=? TransferRow.blockTimestamp t) = true) by (apply Z.leb_le; lia).
    rewrite Hw. cbn [andb].
    set (f := Str.toLowerCase (TransferRow.from t)).
    set (g := Str.toLowerCase (TransferRow.to t)).
    set (v := TransferRow.value t).
    set (ch := chainName (TransferRow.chainId t)).
    set (flows1 := if tracked f then debit flows f v ch else flows).
    assert (H1 : FlowEntry.inflow (entryOf flows1 a) = FlowEntry.inflow (entryOf flows a)
                 /\ FlowEntry.outflow (entryOf flows1 a)
                    = FlowEntry.outflow (entryOf flows a) + (if String.eqb f a then v else 0)
                 /\ FlowEntry.count (entryOf flows1 a)
                    = FlowEntry.count (entryOf flows a) + (if String.eqb f a then 1 else 0)).
    { unfold flows1. destruct (String.eqb f a) eqn:Ef.
      - apply String.eqb_eq in Ef. rewrite Ef, Ht. apply debit_entryOf_eq.
      - apply String.eqb_neq in Ef.
        destruct (tracked f); [rewrite debit_entryOf_ne by exact Ef|]; repeat split; lia. }
    destruct H1 as (Hi & Ho & Hc).
    destruct (String.eqb g a) eqn:Eg.
    + apply String.eqb_eq in Eg. rewrite Eg, Ht.
      destruct (credit_entryOf_eq flows1 a v ch) as (Ci & Co & Cc).
      rewrite Ci, Co, Cc, Hi, Ho, Hc. repeat split; lia.
    + apply String.eqb_neq in Eg.
      destruct (tracked g); [rewrite credit_entryOf_ne by exact Eg|];
        rewrite Hi, Ho, Hc; repeat split; lia.
Qed.

Lemma sumValues_cons (t : TransferRow.t) (ts : list TransferRow.t) :
  sumValues (t :: ts) = TransferRow.value t + sumValues ts.
Proof. reflexivity. Qed.

Lemma fold_windowStep_entryOf cutoff ts flows a :
  tracked a = true ->
  let e := entryOf flows a in
  let e' := entryOf (fold_left (windowStep cutoff) ts flows) a in
  FlowEntry.inflow e' = FlowEntry.inflow e + sumValues (receivedBy cutoff a ts)
  /\ FlowEntry.outflow e' = FlowEntry.outflow e + sumValues (sentBy cutoff a ts)
  /\ FlowEntry.count e' = FlowEntry.count e
       + Z.of_nat (length (receivedBy cutoff a ts) + length (sentBy cutoff a ts)).
Proof.
  intros Ht. cbv zeta. revert flows. induction ts as [|t ts IH]; intros flows.
  - cbn [fold_left receivedBy sentBy filter sumValues fold_right length Nat.add].
    change (Z.of_nat 0) with 0. repeat split; lia.
  - cbn [fold_left]. destruct (IH (windowStep cutoff flows t)) as (Hi & Ho & Hc).
    destruct (windowStep_entryOf cutoff flows t a Ht) as (Si & So & Sc).
    rewrite Hi, Ho, Hc, Si, So, Sc. unfold receivedBy, sentBy. cbn [filter].
    destruct ((cutoff <=? TransferRow.blockTimestamp t)
              && String.eqb (Str.toLowerCase (TransferRow.to t)) a);
      destruct ((cutoff <=? TransferRow.blockTimestamp t)
                && String.eqb (Str.toLowerCase (TransferRow.from t)) a);
      rewrite ?sumValues_cons; cbn [length]; repeat split; lia.
Qed.

Lemma untracked_no_entry cutoff ts a :
  tracked a = false -> JSMap.get (fold_left (windowStep cutoff) ts []) a = None.
Proof.
  intros Ht. destruct (JSMap.get (fold_left (windowStep cutoff) ts []) a) as [e|] eqn:E;
    [|reflexivity].
  assert (Hok : Forall flowEntryOk (fold_left (windowStep cutoff) ts []))
    by (apply fold_windowStep_ok; constructor).
  apply get_In in E. rewrite Forall_forall in Hok. apply Hok in E as [H _].
  cbn in H. congruence.
Qed.

Lemma windowTotals_fold cutoff ts a :
  tracked a = true -> windowTotals cutoff ts a (fold_left (windowStep cutoff) ts []).
Proof.
  intros Ht.
  destruct (fold_windowStep_entryOf cutoff ts [] a Ht) as (Hi & Ho & Hc).
  change (entryOf [] a) with FlowEntry.fresh in Hi, Ho, Hc. cbn [FlowEntry.fresh
    FlowEntry.inflow FlowEntry.outflow FlowEntry.count] in Hi, Ho, Hc.
  unfold windowTotals. split; [lia | split; [lia | split; [lia|]]].
  split.
  - intros Hnone. unfold entryOf in Hc. rewrite Hnone in Hc.
    cbn [default FlowEntry.fresh FlowEntry.count] in Hc.
    destruct (receivedBy cutoff a ts), (sentBy cutoff a ts); cbn [length] in Hc;
      try lia. split; reflexivity.
  - intros [Hr Hs]. rewrite Hr, Hs in Hc. cbn [length Nat.add] in Hc.
    change (Z.of_nat 0) with 0 in Hc.
    destruct (JSMap.get (fold_left (windowStep cutoff) ts []) a) as [e|] eqn:E;
      [|reflexivity].
    assert (Hok : Forall flowEntryOk (fold_left (windowStep cutoff) ts []))
      by (apply fold_windowStep_ok; constructor).
    exfalso. unfold entryOf in Hc. rewrite E in Hc.
    change (FlowEntry.count e = 0 + 0) in Hc.
    apply get_In in E. rewrite Forall_forall in Hok. apply Hok in E as [_ H].
    cbn in H. lia.
Qed.

(** X2. For an address that passes the guard, the entry of each window map
    holds the sum of the values it received in the window as inflow, the sum
    of the values it sent as outflow, and the number of transfer sides it
    took as count (case variants of the address counted together, a transfer
    to itself counted twice); it has no entry exactly when it took part in
    no transfer of the window. An address that does not pass the guard has
    no entry. *)
Theorem flow_entries_are_window_totals :
  forall (now : Z) (allTransfers : list TransferRow.t) (a : string),
    let flows := computeFlows now allTransfers in
    (tracked a = true ->
     windowTotals (cutoff30d now) allTransfers a (flows30d flows)
     /\ windowTotals (cutoff7d now) allTransfers a (flows7d flows))
    /\ (tracked a = false ->
        JSMap.get (flows30d flows) a = None /\ JSMap.get (flows7d flows) a = None).
Proof.
  intros now ts a flows. unfold flows, computeFlows. rewrite computeFlows_fold.
  cbn [flows30d flows7d]. split; intros Ht.
  - split; apply windowTotals_fold; exact Ht.
  - split; apply untracked_no_entry; exact Ht.
Qed.

Lemma flow_entries_are_window_totals_witness :
  windowTotals (cutoff30d 3000000)
    [TransferRow.mk 100 2999000 "0xA" "0xB" 100;
     TransferRow.mk 1 1300000 "0xb" "0xc" 40]
    "0xb"
    (flows30d (computeFlows 3000000
       [TransferRow.mk 100 2999000 "0xA" "0xB" 100;
        TransferRow.mk 1 1300000 "0xb" "0xc" 40])).
Proof.
  refine (proj1 (proj1 (flow_entries_are_window_totals 3000000
            [TransferRow.mk 100 2999000 "0xA" "0xB" 100;
             TransferRow.mk 1 1300000 "0xb" "0xc" 40] "0xb") _)).
  reflexivity.
Defined.

Lemma filter_length_mono {A : Type} (p q : A -> bool) (l : list A) :
  (forall x, p x = true -> q x = true) ->
  (length (filter p l) <= length (filter q l))%nat.
Proof.
  intros H. induction l as [|x l IH]; cbn [filter]; [lia|].
  destruct (p x) eqn:Ep.
  - rewrite (H x Ep). cbn [length]. lia.
  - destruct (q x); cbn [length]; lia.
Qed.

Lemma filter_sum_mono (p q : TransferRow.t -> bool) (l : list TransferRow.t) :
  (forall x, p x = true -> q x = true) ->
  (forall t, In t l -> 0 <= TransferRow.value t) ->
  sumValues (filter p l) <= sumValues (filter q l).
Proof.
  intros H Hv. induction l as [|x l IH]; cbn [filter]; [lia|].
  assert (IH' : sumValues (filter p l) <= sumValues (filter q l))
    by (apply IH; intros t Ht; apply Hv; right; exact Ht).
  assert (Hx : 0 <= TransferRow.value x) by (apply Hv; left; reflexivity).
  destruct (p x) eqn:Ep.
  - rewrite (H x Ep), !sumValues_cons. lia.
  - destruct (q x); rewrite ?sumValues_cons; lia.
Qed.

Lemma window_narrower (c7 c30 : Z) (a : string) (side : TransferRow.t -> string)
    (t : TransferRow.t) :
  c30 <= c7 ->
  (c7 <=? TransferRow.blockTimestamp t) && String.eqb (Str.toLowerCase (side t)) a = true ->
  (c30 <=? TransferRow.blockTimestamp t) && String.eqb (Str.toLowerCase (side t)) a = true.
Proof.
  intros Hc H. apply andb_true_iff in H as [Hw Hs]. apply andb_true_iff.
  split; [|exact Hs]. apply Z.leb_le in Hw. apply Z.leb_le. lia.
Qed.

(** X3. For every address the 7-day entry never counts more transfer sides
    than the 30-day entry, and when no transfer value is negative its inflow
    and outflow are at most those of the 30-day entry. *)
Theorem window_7d_totals_within_30d :
  forall (now : Z) (allTransfers : list TransferRow.t) (a : string),
    let flows := computeFlows now allTransfers in
    let e7 := entryOf (flows7d flows) a in
    let e30 := entryOf (flows30d flows) a in
    FlowEntry.count e7 <= FlowEntry.count e30
    /\ ((forall t, In t allTransfers -> 0 <= TransferRow.value t) ->
        FlowEntry.inflow e7 <= FlowEntry.inflow e30
        /\ FlowEntry.outflow e7 <= FlowEntry.outflow e30).
Proof.
  intros now ts a flows e7 e30. unfold e7, e30, flows, computeFlows.
  rewrite computeFlows_fold. cbn [flows30d flows7d].
  assert (Hc : cutoff30d now <= cutoff7d now) by (unfold cutoff30d, cutoff7d; lia).
  destruct (tracked a) eqn:Ht.
  - destruct (windowTotals_fold (cutoff7d now) ts a Ht) as (I7 & O7 & C7 & _).
    destruct (windowTotals_fold (cutoff30d now) ts a Ht) as (I30 & O30 & C30 & _).
    rewrite I7, O7, C7, I30, O30, C30. split.
    + unfold receivedBy, sentBy.
      pose proof (filter_length_mono _ _ ts
                    (fun t => window_narrower (cutoff7d now) (cutoff30d now) a
                                TransferRow.to t Hc)) as H1.
      pose proof (filter_length_mono _ _ ts
                    (fun t => window_narrower (cutoff7d now) (cutoff30d now) a
                                TransferRow.from t Hc)) as H2.
      cbv beta in H1, H2. lia.
    + intros Hv. unfold receivedBy, sentBy. split; apply filter_sum_mono; try exact Hv.
      * intros t. apply (window_narrower _ _ a TransferRow.to t Hc).
      * intros t. apply (window_narrower _ _ a TransferRow.from t Hc).
  - unfold entryOf. rewrite !untracked_no_entry by exact Ht. cbn. split; [lia|].
    intros _. split; lia.
Qed.

Lemma window_7d_totals_within_30d_witness :
  FlowEntry.inflow
    (entryOf (flows7d (computeFlows 3000000
       [TransferRow.mk 100 2999000 "0xA" "0xB" 100;
        TransferRow.mk 1 1300000 "0xc" "0xb" 40])) "0xb")
  <= FlowEntry.inflow
       (entryOf (flows30d (computeFlows 3000000
          [TransferRow.mk 100 2999000 "0xA" "0xB" 100;
           TransferRow.mk 1 1300000 "0xc" "0xb" 40])) "0xb").
Proof.
  refine (proj1 (proj2 (window_7d_totals_within_30d 3000000
            [TransferRow.mk 100 2999000 "0xA" "0xB" 100;
             TransferRow.mk 1 1300000 "0xc" "0xb" 40] "0xb") _)).
  intros t [<-|[<-|[]]]; cbn; lia.
Defined.

(** ** Chain lists of the output *)

Lemma JSSet_add_NoDup (s : list string) (x : string) : NoDup s -> NoDup (JSSet.add s x).
Proof.
  intros Hnd. unfold JSSet.add. destruct (JSSet.has s x) eqn:E; [assumption|].
  assert (Hni : ~ In x s).
  { intros H. apply JSSet_has_In in H. congruence. }
  clear E. induction Hnd as [|a s Ha Hnd IH]; cbn [app].
  - constructor; [intros [] | constructor].
  - constructor.
    + rewrite in_app_iff. cbn [In]. intros [H|[H|[]]]; [contradiction|].
      subst a. apply Hni. left. reflexivity.
    + apply IH. intros H. apply Hni. right. exact H.
Qed.

Lemma insertBy_sorted_rel {A : Type} (cmp : A -> A -> Z) (R : A -> A -> Prop)
    (x : A) (l : list A) :
  (forall a b, cmp a b <= 0 -> R a b) ->
  (forall a b, ~ cmp a b <= 0 -> R b a) ->
  (forall a b c, R a b -> R b c -> R a c) ->
  StronglySorted R l -> StronglySorted R (insertBy cmp x l).
Proof.
  intros Hle Hgt Htr. induction l as [|y l IH]; intros Hs; cbn [insertBy].
  - constructor; constructor.
  - apply StronglySorted_inv in Hs as [Hs Hy].
    destruct (cmp x y <=? 0) eqn:E.
    + apply Z.leb_le in E.
      constructor; [constructor; assumption|].
      constructor; [apply Hle; exact E|].
      eapply Forall_impl; [|exact Hy]. intros z Hz.
      eapply Htr; [apply Hle; exact E | exact Hz].
    + apply Z.leb_gt in E.
      constructor; [apply IH; exact Hs|].
      eapply Permutation_Forall; [symmetry; apply insertBy_perm|].
      constructor; [apply Hgt; lia | exact Hy].
Qed.

Lemma sortBy_sorted_rel {A : Type} (cmp : A -> A -> Z) (R : A -> A -> Prop) (l : list A) :
  (forall a b, cmp a b <= 0 -> R a b) ->
  (forall a b, ~ cmp a b <= 0 -> R b a) ->
  (forall a b c, R a b -> R b c -> R a c) ->
  StronglySorted R (sortBy cmp l).
Proof.
  intros Hle Hgt Htr. induction l as [|x l IH]; cbn [sortBy fold_right]; [constructor|].
  apply insertBy_sorted_rel; assumption.
Qed.

Lemma leb_trans (a b c : string) :
  String.leb a b = true -> String.leb b c = true -> String.leb a c = true.
Proof.
  intros H1 H2. apply Is_true_true.
  apply (PreOrder_Transitive (R := String.le) a b c); apply Is_true_true; assumption.
Qed.

Lemma cmpString_le (a b : string) : cmpString a b <= 0 -> String.leb a b = true.
Proof.
  unfold cmpString, String.leb. destruct (String.compare a b); [reflexivity..|lia].
Qed.

Lemma cmpString_gt (a b : string) : ~ cmpString a b <= 0 -> String.leb b a = true.
Proof.
  unfold cmpString, String.leb. rewrite (String.compare_antisym b a).
  destruct (String.compare a b); cbn; [lia | lia | reflexivity].
Qed.

(** Sorting a duplicate-free set of names gives a strictly ascending list. *)
Lemma sortStrings_ascending (l : list string) : NoDup l -> ascending (sortStrings l).
Proof.
  intros Hnd. unfold ascending, sortStrings.
  assert (Hs : StronglySorted (fun a b => String.leb a b = true) (sortBy cmpString l)).
  { apply sortBy_sorted_rel; [apply cmpString_le | apply cmpString_gt | apply leb_trans]. }
  assert (Hn : NoDup (sortBy cmpString l)).
  { eapply Permutation_NoDup; [symmetry; apply sortBy_perm | exact Hnd]. }
  induction Hs as [|x s Hs IH Hx]; [constructor|].
  apply NoDup_cons_iff in Hn as [Hni Hn].
  constructor; [apply IH; exact Hn|].
  rewrite Forall_forall in *. intros y Hy. specialize (Hx y Hy).
  unfold String.leb in Hx. destruct (String.compare x y) eqn:E; [|reflexivity|discriminate].
  apply String.compare_eq_iff in E. subst y. contradiction.
Qed.

Lemma fresh_chains_NoDup (flows : JSMap FlowEntry.t) (a : string) :
  Forall (fun p => NoDup (FlowEntry.chains (snd p))) flows ->
  NoDup (FlowEntry.chains (default FlowEntry.fresh (JSMap.get flows a))).
Proof.
  intros H. destruct (JSMap.get flows a) as [e|] eqn:E; cbn [default].
  - apply get_In in E. rewrite Forall_forall in H. apply (H _ E).
  - constructor.
Qed.

Lemma windowStep_chains_NoDup cutoff flows t :
  Forall (fun p => NoDup (FlowEntry.chains (snd p))) flows ->
  Forall (fun p => NoDup (FlowEntry.chains (snd p))) (windowStep cutoff flows t).
Proof.
  assert (Hd : forall f x v c,
             Forall (fun p => NoDup (FlowEntry.chains (snd p))) f ->
             Forall (fun p => NoDup (FlowEntry.chains (snd p))) (debit f x v c)).
  { intros f x v c H. unfold debit. apply Forall_set; [exact H|].
    cbn [snd FlowEntry.chains]. apply JSSet_add_NoDup, fresh_chains_NoDup, H. }
  assert (Hc : forall f x v c,
             Forall (fun p => NoDup (FlowEntry.chains (snd p))) f ->
             Forall (fun p => NoDup (FlowEntry.chains (snd p))) (credit f x v c)).
  { intros f x v c H. unfold credit. apply Forall_set; [exact H|].
    cbn [snd FlowEntry.chains]. apply JSSet_add_NoDup, fresh_chains_NoDup, H. }
  intros H. unfold windowStep.
  destruct (TransferRow.blockTimestamp t <? cutoff); [exact H|].
  destruct (tracked (Str.toLowerCase (TransferRow.from t)));
    destruct (tracked (Str.toLowerCase (TransferRow.to t))); auto.
Qed.

Lemma fold_windowStep_chains_NoDup cutoff ts flows :
  Forall (fun p => NoDup (FlowEntry.chains (snd p))) flows ->
  Forall (fun p => NoDup (FlowEntry.chains (snd p))) (fold_left (windowStep cutoff) ts flows).
Proof.
  revert flows. induction ts as [|t ts IH]; intros flows H; cbn [fold_left]; [exact H|].
  apply IH, windowStep_chains_NoDup, H.
Qed.

Lemma mergeHolderPage_chains_NoDup (rows : list AccountRow.t) (m : JSMap HolderEntry.t) :
  Forall (fun p => NoDup (HolderEntry.chains (snd p))) m ->
  Forall (fun p => NoDup (HolderEntry.chains (snd p))) (mergeHolderPage m rows).
Proof.
  unfold mergeHolderPage. revert m. induction rows as [|r rows IH]; intros m H;
    cbn [fold_left]; [exact H|].
  apply IH. rewrite mergeHolder_absorb. apply Forall_set; [exact H|].
  cbn [snd]. unfold absorb.
  destruct (JSMap.get m (Str.toLowerCase (AccountRow.address r))) as [e|] eqn:E;
    cbn [HolderEntry.chains].
  - apply JSSet_add_NoDup. apply get_In in E. rewrite Forall_forall in H. apply (H _ E).
  - constructor; [intros [] | constructor].
Qed.

Lemma buildTop_chains_ascending (cutoff : Z) (ts : list TransferRow.t) (row : FlowRow.t) :
  In row (buildTop (fold_left (windowStep cutoff) ts [])) -> ascending (FlowRow.chains row).
Proof.
  unfold buildTop. intros Hin. apply in_map_iff in Hin as ([a e] & <- & Hin).
  apply topFlows_incl in Hin. cbn [flowRow FlowRow.chains].
  apply sortStrings_ascending.
  assert (H : Forall (fun p => NoDup (FlowEntry.chains (snd p)))
                (fold_left (windowStep cutoff) ts []))
    by (apply fold_windowStep_chains_NoDup; constructor).
  rewrite Forall_forall in H. apply (H _ Hin).
Qed.

(** X4. The chain list of every row of the flow rankings and of the
    top-holder ranking is in strictly ascending order: sorted, and no name
    twice. *)
Theorem output_chain_lists_ascending :
  (forall (now : Z) (allTransfers : list TransferRow.t) (row : FlowRow.t),
      In row (buildTop (flows7d (computeFlows now allTransfers)))
      \/ In row (buildTop (flows30d (computeFlows now allTransfers))) ->
      ascending (FlowRow.chains row))
  /\ (forall (pages : list (list AccountRow.t)) (row : HolderRow.t),
         In row (rankHolders (mergeHolderPages pages)) ->
         ascending (HolderRow.chains row)).
Proof.
  split.
  - intros now ts row. unfold computeFlows. rewrite computeFlows_fold.
    cbn [flows7d flows30d]. intros [H|H]; eapply buildTop_chains_ascending; exact H.
  - intros pages row Hin. unfold rankHolders in Hin.
    apply in_map_iff in Hin as ([a e] & <- & Hin).
    apply In_firstn in Hin. apply (proj1 (sortBy_In cmpHolder _ _)) in Hin.
    cbn [holderRow HolderRow.chains]. apply sortStrings_ascending.
    unfold mergeHolderPages in Hin. rewrite mergeHolderPages_concat in Hin.
    assert (H : Forall (fun p => NoDup (HolderEntry.chains (snd p)))
                  (mergeHolderPage [] (concat pages)))
      by (apply mergeHolderPage_chains_NoDup; constructor).
    rewrite Forall_forall in H. apply (H _ Hin).
Qed.

Lemma output_chain_lists_ascending_witness :
  ascending ["ethereum"; "gnosis"].
Proof.
  refine (proj2 output_chain_lists_ascending
            [[AccountRow.mk "0xAA" 100 30 2]; [AccountRow.mk "0xaa" 1 10 4]]
            (HolderRow.mk "0xaa" "0.00000000000000004" 6 ["ethereum"; "gnosis"]) _).
  left. vm_compute. reflexivity.
Defined.

(** ** The top-holder ranking *)

Lemma set_keys_NoDup {V : Type} (m : JSMap V) (k : string) (v : V) :
  NoDup (JSMap.keys m) -> NoDup (JSMap.keys (JSMap.set m k v)).
Proof.
  unfold JSMap.keys. induction m as [|[k0 v0] m IH]; cbn [JSMap.set map fst]; intros Hnd.
  - constructor; [intros [] | constructor].
  - apply NoDup_cons_iff in Hnd as [Hni Hnd].
    destruct (String.eqb k0 k) eqn:E; cbn [map fst].
    + constructor; assumption.
    + constructor; [|apply IH; assumption].
      intros Hin. apply (keys_set m k v k0) in Hin as [Hin|Hin].
      * subst k0. rewrite String.eqb_refl in E. discriminate.
      * contradiction.
Qed.

Lemma mergeHolderPage_keys_NoDup (rows : list AccountRow.t) (m : JSMap HolderEntry.t) :
  NoDup (JSMap.keys m) -> NoDup (JSMap.keys (mergeHolderPage m rows)).
Proof.
  unfold mergeHolderPage. revert m. induction rows as [|r rows IH]; intros m H;
    cbn [fold_left]; [exact H|].
  apply IH. rewrite mergeHolder_absorb. apply set_keys_NoDup, H.
Qed.

Lemma cmpHolder_le (a b : string * HolderEntry.t) :
  cmpHolder a b <= 0 <-> HolderEntry.balance (snd b) <= HolderEntry.balance (snd a).
Proof.
  unfold cmpHolder.
  destruct (HolderEntry.balance (snd b) >? HolderEntry.balance (snd a)) eqn:E1.
  - apply Z.gtb_lt in E1. lia.
  - rewrite Z.gtb_ltb in E1. apply Z.ltb_ge in E1.
    destruct (HolderEntry.balance (snd b) <? HolderEntry.balance (snd a)); lia.
Qed.

(** X5. The top-holder ranking renders the entries of the merged map in
    descending order of summed balance, at most [TOP_N] of them and all of
    them when there are fewer; no address occurs twice; every entry left out
    holds at most as much as every entry kept; and entries of equal balance
    keep the order in which their addresses were first seen. *)
Theorem top_holders_ranking :
  forall pages : list (list AccountRow.t),
    let holderMap := mergeHolderPages pages in
    rankHolders holderMap = map holderRow (topHolders holderMap)
    /\ length (rankHolders holderMap) = Nat.min 50 (length holderMap)
    /\ NoDup (map HolderRow.address (rankHolders holderMap))
    /\ StronglySorted holdsAtLeast (topHolders holderMap)
    /\ (forall x y, In x (topHolders holderMap) -> In y holderMap ->
                    ~ In y (topHolders holderMap) -> holdsAtLeast x y)
    /\ (forall v, exists rest,
           filter (sameBalance v) holderMap
           = filter (sameBalance v) (topHolders holderMap) ++ rest).
Proof.
  intros pages holderMap.
  assert (Hsorted : StronglySorted holdsAtLeast (sortBy cmpHolder holderMap)).
  { apply (sortBy_sorted cmpHolder (fun p => HolderEntry.balance (snd p))).
    intros a b. apply cmpHolder_le. }
  split; [reflexivity|]. split; [|split; [|split; [|split]]].
  - unfold rankHolders. rewrite length_map, length_firstn, sortBy_length. reflexivity.
  - assert (Hk : NoDup (JSMap.keys holderMap)).
    { unfold holderMap, mergeHolderPages. rewrite mergeHolderPages_concat.
      apply mergeHolderPage_keys_NoDup. constructor. }
    assert (Hs : NoDup (map fst (sortBy cmpHolder holderMap))).
    { eapply Permutation_NoDup; [|exact Hk].
      apply Permutation_map. symmetry. apply sortBy_perm. }
    rewrite <- (firstn_skipn TOP_N (sortBy cmpHolder holderMap)), map_app in Hs.
    apply NoDup_app_remove_r in Hs.
    unfold rankHolders. rewrite map_map.
    erewrite map_ext; [exact Hs|]. intros [a e]. reflexivity.
  - apply StronglySorted_firstn, Hsorted.
  - intros x y Hx Hy Hny.
    rewrite <- (firstn_skipn TOP_N (sortBy cmpHolder holderMap)) in Hsorted.
    apply StronglySorted_app_inv in Hsorted as (_ & _ & H12).
    apply (H12 x y); [exact Hx|].
    apply (sortBy_In cmpHolder) in Hy.
    rewrite <- (firstn_skipn TOP_N (sortBy cmpHolder holderMap)) in Hy.
    apply in_app_or in Hy as [Hy|Hy]; [contradiction | exact Hy].
  - intros v.
    exists (filter (sameBalance v) (skipn TOP_N (sortBy cmpHolder holderMap))).
    unfold topHolders. rewrite <- filter_app, firstn_skipn.
    symmetry. apply sortBy_stable.
    intros x y Hx Hy. unfold sameBalance in *.
    apply Z.eqb_eq in Hx, Hy. apply cmpHolder_le. lia.
Qed.

(** ** The balance map *)

Lemma mergeBalancePages_concat (pages : list (list AccountRow.t)) (m : JSMap Z) :
  fold_left mergeBalancePage pages m = mergeBalancePage m (concat pages).
Proof.
  revert m. induction pages as [|p pages IH]; intros m; cbn [fold_left concat]; [reflexivity|].
  rewrite IH. unfold mergeBalancePage. rewrite fold_left_app. reflexivity.
Qed.

Lemma sumBalance_cons (r : AccountRow.t) (rows : list AccountRow.t) :
  sumBalance (r :: rows) = AccountRow.balance r + sumBalance rows.
Proof. reflexivity. Qed.

Lemma mergeBalancePage_get (rows : list AccountRow.t) (m : JSMap Z) (a : string) :
  JSMap.get (mergeBalancePage m rows) a
  = match rowsOf a rows with
    | [] => JSMap.get m a
    | rs => Some (default 0 (JSMap.get m a) + sumBalance rs)
    end.
Proof.
  unfold mergeBalancePage. revert m. induction rows as [|r rows IH]; intros m.
  - reflexivity.
  - cbn [fold_left]. rewrite IH. unfold rowsOf. cbn [filter]. fold (rowsOf a rows).
    unfold mergeBalance.
    destruct (String.eqb (Str.toLowerCase (AccountRow.address r)) a) eqn:E.
    + apply String.eqb_eq in E. rewrite E, get_set_eq.
      destruct (rowsOf a rows) as [|r' rs]; cbn [default].
      * rewrite sumBalance_cons. cbn [sumBalance fold_right]. f_equal. unfold id. lia.
      * rewrite (sumBalance_cons r). f_equal. unfold id. lia.
    + apply String.eqb_neq in E. rewrite get_set_ne by exact E. reflexivity.
Qed.

(** X6. The balance map holds, for each address, the sum of the balances of
    all returned rows of that address (case variants and chains merged), and
    nothing for an address without a row; the balance attached to a ranking
    row is that sum, zero when there is no row; neither depends on the order
    of the rows or on how they are split into batches. *)
Theorem balance_map_sums_rows :
  forall (pages : list (list AccountRow.t)) (a : string),
    let balances := fold_left mergeBalancePage pages [] in
    JSMap.get balances a
    = match rowsOf a (concat pages) with
      | [] => None
      | rs => Some (sumBalance rs)
      end
    /\ balanceOrZero balances a = sumBalance (rowsOf a (concat pages))
    /\ (forall pages',
           Permutation (concat pages) (concat pages') ->
           JSMap.get (fold_left mergeBalancePage pages' []) a = JSMap.get balances a).
Proof.
  intros pages a balances.
  assert (Hget : forall ps, JSMap.get (fold_left mergeBalancePage ps []) a
                 = match rowsOf a (concat ps) with
                   | [] => None
                   | rs => Some (sumBalance rs)
                   end).
  { intros ps. rewrite mergeBalancePages_concat, mergeBalancePage_get.
    destruct (rowsOf a (concat ps)); [reflexivity|]. cbn [JSMap.get default]. f_equal. }
  split; [apply Hget | split].
  - unfold balanceOrZero, balances. rewrite Hget.
    destruct (rowsOf a (concat pages)) as [|r rs]; [reflexivity|].
    destruct (sumBalance (r :: rs) =? 0) eqn:E; [|reflexivity].
    apply Z.eqb_eq in E. symmetry. exact E.
  - intros pages' Hp. unfold balances. rewrite !Hget.
    pose proof (rowsOf_perm a _ _ Hp) as Hr.
    destruct (rowsOf a (concat pages)) as [|r rs] eqn:E1;
      destruct (rowsOf a (concat pages')) as [|r' rs'] eqn:E2.
    + reflexivity.
    + apply Permutation_nil in Hr. discriminate.
    + symmetry in Hr. apply Permutation_nil in Hr. discriminate.
    + f_equal. symmetry. apply sumBalance_perm, Hr.
Qed.

Lemma balance_map_sums_rows_witness :
  JSMap.get
    (fold_left mergeBalancePage
       [[AccountRow.mk "0xaa" 100 10 4; AccountRow.mk "0xbb" 100 20 1];
        [AccountRow.mk "0xAA" 1 30 2]] [])
    "0xaa"
  = JSMap.get
      (fold_left mergeBalancePage
         [[AccountRow.mk "0xAA" 1 30 2]; [AccountRow.mk "0xbb" 100 20 1];
          [AccountRow.mk "0xaa" 100 10 4]] [])
      "0xaa".
Proof.
  refine (proj2 (proj2 (balance_map_sums_rows
            [[AccountRow.mk "0xAA" 1 30 2]; [AccountRow.mk "0xbb" 100 20 1];
             [AccountRow.mk "0xaa" 100 10 4]] "0xaa"))
            [[AccountRow.mk "0xaa" 100 10 4; AccountRow.mk "0xbb" 100 20 1];
             [AccountRow.mk "0xAA" 1 30 2]] _).
  cbn [concat app].
  apply Permutation_sym.
  apply (Permutation_cons_app [AccountRow.mk "0xAA" 1 30 2; AccountRow.mk "0xbb" 100 20 1] []).
  cbn [app]. apply perm_swap.
Defined.

(** ** How many requests the loops issue *)

Lemma graphqlQuery_quiet {D : Type} (q : Query D) (w : World) :
  faults w (requests w) = None ->
  graphqlQuery q w = (Ok (answer (store w) q), advance w 1).
Proof.
  intros H. unfold graphqlQuery, bind, fetch. rewrite H. cbn.
  unfold advance. repeat f_equal. lia.
Qed.

Lemma advance_advance (w : World) (j k : nat) : advance (advance w j) k = advance w (j + k).
Proof. unfold advance. cbn. f_equal. lia. Qed.

Lemma div_step (n L : nat) : (0 < L)%nat -> (L <= n)%nat -> (1 + ((n - L) / L + 1) = n / L + 1)%nat.
Proof.
  intros HL Hn.
  replace n with ((n - L) + 1 * L)%nat at 2 by lia.
  rewrite Nat.div_add by lia. lia.
Qed.

Lemma fetchHolderPages_quiet (rows : list AccountRow.t) (limit : Z) (fuel : nat) :
  1 <= limit ->
  forall (offset : Z) (m : JSMap HolderEntry.t) (w : World),
    allQuiet w ->
    Store.positiveAccounts (store w) = rows ->
    0 <= offset ->
    (length (skipn (Z.to_nat offset) rows) < fuel)%nat ->
    fetchHolderPages fuel limit offset m w
    = (Ok (mergeHolderPage m (skipn (Z.to_nat offset) rows)),
       advance w (length (skipn (Z.to_nat offset) rows) / Z.to_nat limit + 1)).
Proof.
  intros Hlimit. induction fuel as [|fuel IH]; intros offset m w Hq Hrows Hoff Hfuel; [lia|].
  cbn [fetchHolderPages]. unfold bind at 1.
  rewrite graphqlQuery_quiet by apply Hq. cbn [answer]. rewrite Hrows. unfold page.
  set (rest := skipn (Z.to_nat offset) rows) in *.
  destruct (Z.of_nat (length (firstn (Z.to_nat limit) rest)) <? limit) eqn:E.
  - apply Z.ltb_lt in E. unfold ret.
    rewrite firstn_short by lia.
    assert (Hlt : (length rest < Z.to_nat limit)%nat).
    { rewrite length_firstn in E. lia. }
    rewrite Nat.div_small by exact Hlt. reflexivity.
  - apply Z.ltb_ge in E.
    assert (Hfull : (Z.to_nat limit <= length rest)%nat) by (apply firstn_full; lia).
    rewrite IH; [| exact Hq | exact Hrows | lia |].
    + rewrite skipn_add by lia. fold rest.
      rewrite advance_advance, length_skipn, div_step by lia.
      unfold mergeHolderPage. rewrite <- fold_left_app, firstn_skipn. reflexivity.
    + rewrite skipn_add by lia. fold rest. rewrite length_skipn. lia.
Qed.

Lemma fetchTransfers_quiet (rows : list TransferRow.t) (cutoff limit : Z) (fuel : nat) :
  1 <= limit ->
  forall (offset : Z) (allTransfers : list TransferRow.t) (w : World),
    allQuiet w ->
    Store.transfersSince (store w) cutoff = rows ->
    0 <= offset ->
    (length (skipn (Z.to_nat offset) rows) < fuel)%nat ->
    fetchTransfers fuel cutoff limit offset allTransfers w
    = (Ok (allTransfers ++ skipn (Z.to_nat offset) rows),
       advance w (length (skipn (Z.to_nat offset) rows) / Z.to_nat limit + 1)).
Proof.
  intros Hlimit. induction fuel as [|fuel IH];
    intros offset allTransfers w Hq Hrows Hoff Hfuel; [lia|].
  cbn [fetchTransfers]. unfold bind at 1.
  rewrite graphqlQuery_quiet by apply Hq. cbn [answer]. rewrite Hrows. unfold page.
  set (rest := skipn (Z.to_nat offset) rows) in *.
  destruct (Z.of_nat (length (firstn (Z.to_nat limit) rest)) <? limit) eqn:E.
  - apply Z.ltb_lt in E. unfold ret.
    rewrite firstn_short by lia.
    assert (Hlt : (length rest < Z.to_nat limit)%nat).
    { rewrite length_firstn in E. lia. }
    rewrite Nat.div_small by exact Hlt. reflexivity.
  - apply Z.ltb_ge in E.
    assert (Hfull : (Z.to_nat limit <= length rest)%nat) by (apply firstn_full; lia).
    rewrite IH; [| exact Hq | exact Hrows | lia |].
    + rewrite skipn_add by lia. fold rest.
      rewrite advance_advance, length_skipn, div_step by lia.
      rewrite <- app_assoc, firstn_skipn. reflexivity.
    + rewrite skipn_add by lia. fold rest. rewrite length_skipn. lia.
Qed.

(** X7. Against a store that answers every request, a paging loop over [n]
    rows with page size [limit] returns all rows after exactly
    [n / limit + 1] requests: when [n] is a multiple of the page size (also
    when there is no row at all) the last page it asks for is empty. *)
Theorem paging_request_count :
  forall (w : World) (limit : Z) (fuel : nat),
    allQuiet w -> 1 <= limit ->
    (forall cutoff,
        let rows := Store.transfersSince (store w) cutoff in
        (length rows < fuel)%nat ->
        fetchTransfers fuel cutoff limit 0 [] w
        = (Ok rows, advance w (length rows / Z.to_nat limit + 1)))
    /\ (let rows := Store.positiveAccounts (store w) in
        (length rows < fuel)%nat ->
        fetchHolderPages fuel limit 0 [] w
        = (Ok (mergeHolderPage [] rows), advance w (length rows / Z.to_nat limit + 1))).
Proof.
  intros w limit fuel Hq Hl. split.
  - intros cutoff rows Hfuel.
    pose proof (fetchTransfers_quiet rows cutoff limit fuel Hl 0 [] w Hq eq_refl
                  (Z.le_refl 0)) as H.
    change (Z.to_nat 0) with 0%nat in H. rewrite skipn_O in H. apply H, Hfuel.
  - intros rows Hfuel.
    pose proof (fetchHolderPages_quiet rows limit fuel Hl 0 [] w Hq eq_refl
                  (Z.le_refl 0)) as H.
    change (Z.to_nat 0) with 0%nat in H. rewrite skipn_O in H. apply H, Hfuel.
Qed.

Lemma paging_request_count_witness :
  fetchHolderPages 10 1 0 [] sampleWorld
  = (Ok (mergeHolderPage [] (Store.positiveAccounts (store sampleWorld))),
     advance sampleWorld
       (length (Store.positiveAccounts (store sampleWorld)) / Z.to_nat 1 + 1)).
Proof.
  refine (proj2 (paging_request_count sampleWorld 1 10 _ _) _).
  - intros i. reflexivity.
  - lia.
  - cbn. lia.
Defined.

(** ** The balance requests *)

Lemma rankedAdd_length (rows : list FlowRow.t) (s : list string) :
  (length (fold_left (fun s r => JSSet.add s (FlowRow.address r)) rows s)
   <= length s + length rows)%nat.
Proof.
  revert s. induction rows as [|r rows IH]; intros s; cbn [fold_left length]; [lia|].
  specialize (IH (JSSet.add s (FlowRow.address r))).
  assert (length (JSSet.add s (FlowRow.address r)) <= S (length s))%nat.
  { unfold JSSet.add. destruct (JSSet.has s (FlowRow.address r)); [lia|].
    rewrite length_app. cbn [length]. lia. }
  lia.
Qed.

Lemma rankedAdd_NoDup (rows : list FlowRow.t) (s : list string) :
  NoDup s -> NoDup (fold_left (fun s r => JSSet.add s (FlowRow.address r)) rows s).
Proof.
  revert s. induction rows as [|r rows IH]; intros s H; cbn [fold_left]; [exact H|].
  apply IH, JSSet_add_NoDup, H.
Qed.

Lemma rankedAdd_In (rows : list FlowRow.t) (s : list string) (a : string) :
  In a (fold_left (fun s r => JSSet.add s (FlowRow.address r)) rows s)
  <-> In a s \/ In a (map FlowRow.address rows).
Proof.
  revert s. induction rows as [|r rows IH]; intros s; cbn [fold_left map In].
  - tauto.
  - rewrite IH, JSSet_add_In. split.
    + intros [[->|H]|H]; auto.
    + intros [H|[<-|H]]; auto.
Qed.

Lemma buildTop_length (flows : JSMap FlowEntry.t) :
  length (buildTop flows) = Nat.min 50 (length flows).
Proof.
  unfold buildTop, topFlows. rewrite length_map, length_firstn, sortBy_length. reflexivity.
Qed.

Lemma fetchBalances_one_batch (fuel : nat) (addresses : list string) (w : World) :
  (0 < length addresses <= 500)%nat ->
  fetchBalances (S (S fuel)) addresses w
  = (accounts <- graphqlQuery (AccountBalances addresses) ;;
     ret (mergeBalancePage [] accounts)) w.
Proof.
  intros Hlen. unfold fetchBalances. cbn [fetchBalancesFrom].
  assert (H0 : (0 <? Z.of_nat (length addresses)) = true) by (apply Z.ltb_lt; lia).
  assert (H500 : (0 + 500 <? Z.of_nat (length addresses)) = false) by (apply Z.ltb_ge; lia).
  rewrite H0, H500.
  assert (Hslice : slice 0 (0 + 500) addresses = addresses).
  { unfold slice. change (Z.to_nat 0) with 0%nat. rewrite skipn_O.
    apply firstn_all2. lia. }
  rewrite Hslice. reflexivity.
Qed.

(** X8. The addresses whose balances a run asks for are those of the two
    flow rankings, each once, at most 100 in all; so [fetchBalances] never
    needs a second batch: for an empty list it returns the empty map without
    any request, and otherwise it issues one request with the whole list and
    merges what comes back. *)
Theorem balances_in_one_batch :
  forall (flows7 flows30 : JSMap FlowEntry.t) (fuel : nat) (w : World),
    let addresses := rankedAddresses (buildTop flows7) (buildTop flows30) in
    NoDup addresses
    /\ (forall a, In a addresses <->
                  In a (map FlowRow.address (buildTop flows7))
                  \/ In a (map FlowRow.address (buildTop flows30)))
    /\ (length addresses <= 100)%nat
    /\ (addresses = [] -> fetchBalances (S fuel) addresses w = (Ok [], w))
    /\ (addresses <> [] ->
        fetchBalances (S (S fuel)) addresses w
        = (accounts <- graphqlQuery (AccountBalances addresses) ;;
           ret (mergeBalancePage [] accounts)) w).
Proof.
  intros flows7 flows30 fuel w addresses.
  assert (Hlen : (length addresses <= 100)%nat).
  { unfold addresses, rankedAddresses.
    pose proof (rankedAdd_length (buildTop flows30)
                  (fold_left (fun s r => JSSet.add s (FlowRow.address r))
                     (buildTop flows7) [])) as H1.
    pose proof (rankedAdd_length (buildTop flows7) []) as H2.
    rewrite !buildTop_length in *. cbn [length] in H2. lia. }
  split; [|split; [|split; [exact Hlen | split]]].
  - unfold addresses, rankedAddresses. apply rankedAdd_NoDup, rankedAdd_NoDup. constructor.
  - intros a. unfold addresses, rankedAddresses. rewrite !rankedAdd_In. cbn [In]. tauto.
  - intros ->. reflexivity.
  - intros Hne. apply fetchBalances_one_batch.
    destruct addresses; [contradiction|]. cbn [length] in *. lia.
Qed.

Lemma balances_in_one_batch_witness :
  fetchBalances 1 (rankedAddresses (buildTop []) (buildTop [])) sampleWorld
  = (Ok [], sampleWorld).
Proof.
  refine (proj1 (proj2 (proj2 (proj2
            (balances_in_one_batch [] [] 0 sampleWorld)))) _).
  reflexivity.
Defined.

(** ** The label map *)

Lemma labels_fold_other (raw : list (string * string)) (m : JSMap string) (a : string) :
  (forall kv, In kv raw -> Str.toLowerCase (fst kv) <> a) ->
  JSMap.get (fold_left (fun o kv => JSMap.set o (Str.toLowerCase (fst kv)) (snd kv)) raw m) a
  = JSMap.get m a.
Proof.
  revert m. induction raw as [|kv raw IH]; intros m H; cbn [fold_left]; [reflexivity|].
  rewrite IH by (intros x Hx; apply H; right; exact Hx).
  apply get_set_ne. apply H. left. reflexivity.
Qed.

Lemma labels_fold_keys (raw : list (string * string)) (m : JSMap string) (k : string) :
  In k (JSMap.keys (fold_left (fun o kv => JSMap.set o (Str.toLowerCase (fst kv)) (snd kv))
                      raw m)) ->
  In k (JSMap.keys m) \/ exists kv, In kv raw /\ k = Str.toLowerCase (fst kv).
Proof.
  revert m. induction raw as [|kv raw IH]; intros m H; cbn [fold_left] in H; [left; exact H|].
  apply IH in H as [H|(x & Hx & ->)].
  - apply keys_set in H as [->|H]; [right; exists kv; split; [left|]; reflexivity | left; exact H].
  - right. exists x. split; [right; exact Hx | reflexivity].
Qed.

(** X9. The label map built from the entries of the label file is keyed by
    lowercase addresses: every key is the lowercase form of a key of the
    file; an address none of whose case variants is in the file has no
    label; and the label of an address is the value of the last entry whose
    key is one of its case variants. *)
Theorem labels_keyed_by_lowercase :
  forall raw : list (string * string),
    (forall k, In k (JSMap.keys (labelsOf (Some raw))) ->
               Str.toLowerCase k = k
               /\ exists kv, In kv raw /\ k = Str.toLowerCase (fst kv))
    /\ (forall a, (forall kv, In kv raw -> Str.toLowerCase (fst kv) <> a) ->
                  JSMap.get (labelsOf (Some raw)) a = None)
    /\ (forall before after k v,
           raw = before ++ (k, v) :: after ->
           (forall kv, In kv after -> Str.toLowerCase (fst kv) <> Str.toLowerCase k) ->
           JSMap.get (labelsOf (Some raw)) (Str.toLowerCase k) = Some v).
Proof.
  intros raw. unfold labelsOf. split; [|split].
  - intros k Hk. apply labels_fold_keys in Hk as [[]|(kv & Hkv & ->)].
    split; [apply toLowerCase_idem | exists kv; split; [exact Hkv | reflexivity]].
  - intros a H. rewrite labels_fold_other by exact H. reflexivity.
  - intros before after k v -> H.
    rewrite fold_left_app. cbn [fold_left fst snd].
    rewrite labels_fold_other by exact H. apply get_set_eq.
Qed.

Lemma labels_keyed_by_lowercase_witness :
  JSMap.get (labelsOf (Some [("0xAB", "old"); ("0xcd", "dao"); ("0xab", "new")])) "0xab"
  = Some "new".
Proof.
  refine (proj2 (proj2 (labels_keyed_by_lowercase
            [("0xAB", "old"); ("0xcd", "dao"); ("0xab", "new")]))
            [("0xAB", "old"); ("0xcd", "dao")] [] "0xab" "new" _ _).
  - reflexivity.
  - intros kv [].
Defined.

(** ** The ledger over a whole log *)

Lemma handler_supplyChange (context : Indexer.Context) (event : Indexer.Event.t) :
  Indexer.totalBalance (Indexer.accounts (Indexer.handler context event))
  = Indexer.totalBalance (Indexer.accounts context) + supplyChange event.
Proof.
  unfold Indexer.handler, supplyChange. cbn [Indexer.accounts].
  destruct (String.eqb (Str.toLowerCase (Indexer.Event.params_from event))
              Indexer.ZERO_ADDRESS);
    destruct (String.eqb (Str.toLowerCase (Indexer.Event.params_to event))
                Indexer.ZERO_ADDRESS);
    cbn [negb];
    rewrite ?IndexerFacts.creditAccount_total, ?IndexerFacts.debitAccount_total; lia.
Qed.

Lemma fold_handler_supply (events : list Indexer.Event.t) (context : Indexer.Context) :
  Indexer.totalBalance (Indexer.accounts (fold_left Indexer.handler events context))
  = Indexer.totalBalance (Indexer.accounts context) + netSupply events.
Proof.
  revert context. induction events as [|ev events IH]; intros context; cbn [fold_left].
  - cbn. lia.
  - rewrite IH, handler_supplyChange. cbn [netSupply fold_right]. fold (netSupply events). lia.
Qed.

(** X10. After any log of events, handled from empty tables, the sum of all
    Account balances is what the log minted minus what it burned: each
    event adds its value if its receiver is not the zero address and takes
    its value away if its sender is not the zero address. *)
Theorem ledger_total_is_net_supply :
  forall events : list Indexer.Event.t,
    Indexer.totalBalance (Indexer.accounts (Indexer.index events)) = netSupply events.
Proof.
  intros events. unfold Indexer.index. rewrite fold_handler_supply.
  cbn [Indexer.accounts]. unfold Indexer.totalBalance. rewrite map_fold_empty. lia.
Qed.

(** ** Entity ids *)

Lemma toString_neg (n : Z) :
  n < 0 -> exists s, Str.toString n = String "-"%char s /\ digitsOf (- n) s.
Proof.
  intros Hn. unfold Str.toString.
  destruct (n <? 0) eqn:E; [|apply Z.ltb_ge in E; lia].
  destruct (natDigits_spec (Str.digitFuel (- n)) (- n) "") as (s & Hs & D).
  - split; [lia | apply digitFuel_enough; lia].
  - unfold Str.digitFuel. lia.
  - exists s. rewrite Hs, str_app_nil_r. split; [reflexivity | exact D].
Qed.

Lemma allDigits_noUnderscore (s : string) : Str.allDigits s = true -> noUnderscore s = true.
Proof.
  induction s as [|c s IH]; [reflexivity|].
  cbn [Str.allDigits noUnderscore]. intros H. apply andb_true_iff in H as [Hc Hs].
  rewrite (IH Hs), andb_true_r. apply negb_true_iff.
  destruct (Ascii.eqb c "_") eqn:E; [|reflexivity].
  apply Ascii.eqb_eq in E. subst c. discriminate Hc.
Qed.

Lemma toString_noUnderscore (n : Z) : noUnderscore (Str.toString n) = true.
Proof.
  destruct (Z.lt_ge_cases n 0) as [Hn|Hn].
  - destruct (toString_neg n Hn) as (s & -> & D).
    cbn [noUnderscore]. rewrite (allDigits_noUnderscore s (digitsOf_all _ _ D)). reflexivity.
  - apply allDigits_noUnderscore, (digitsOf_all n), toString_nonneg, Hn.
Qed.

Lemma toString_inj (n1 n2 : Z) : Str.toString n1 = Str.toString n2 -> n1 = n2.
Proof.
  intros H.
  destruct (Z.lt_ge_cases n1 0) as [H1|H1]; destruct (Z.lt_ge_cases n2 0) as [H2|H2].
  - destruct (toString_neg n1 H1) as (s1 & E1 & D1).
    destruct (toString_neg n2 H2) as (s2 & E2 & D2).
    rewrite E1, E2 in H. injection H as ->.
    pose proof (digitsOf_value _ _ D1). pose proof (digitsOf_value _ _ D2). lia.
  - exfalso. destruct (toString_neg n1 H1) as (s1 & E1 & _).
    pose proof (toString_nonneg n2 H2) as D2. rewrite <- H, E1 in D2.
    pose proof (digitsOf_all _ _ D2) as Ha. cbn [Str.allDigits] in Ha.
    apply andb_true_iff in Ha as [Ha _]. discriminate Ha.
  - exfalso. destruct (toString_neg n2 H2) as (s2 & E2 & _).
    pose proof (toString_nonneg n1 H1) as D1. rewrite H, E2 in D1.
    pose proof (digitsOf_all _ _ D1) as Ha. cbn [Str.allDigits] in Ha.
    apply andb_true_iff in Ha as [Ha _]. discriminate Ha.
  - pose proof (digitsOf_value _ _ (toString_nonneg n1 H1)) as V1.
    pose proof (digitsOf_value _ _ (toString_nonneg n2 H2)) as V2.
    rewrite H in V1. lia.
Qed.

(** A string without underscore, an underscore and a rest: the three parts
    can be read off the whole. *)
Lemma split_underscore (s1 s2 r1 r2 : string) :
  noUnderscore s1 = true -> noUnderscore s2 = true ->
  s1 +:+ String "_"%char r1 = s2 +:+ String "_"%char r2 ->
  s1 = s2 /\ r1 = r2.
Proof.
  revert s2. induction s1 as [|c1 s1 IH]; intros [|c2 s2] H1 H2 H.
  - change (String "_"%char r1 = String "_"%char r2) in H.
    injection H as ->. split; reflexivity.
  - exfalso. change (String "_"%char r1 = String c2 (s2 +:+ String "_"%char r2)) in H.
    injection H as <- _. discriminate H2.
  - exfalso. change (String c1 (s1 +:+ String "_"%char r1) = String "_"%char r2) in H.
    injection H as -> _. discriminate H1.
  - change (String c1 (s1 +:+ String "_"%char r1)
            = String c2 (s2 +:+ String "_"%char r2)) in H.
    injection H as -> H.
    cbn [noUnderscore] in H1, H2.
    apply andb_true_iff in H1 as [_ H1]. apply andb_true_iff in H2 as [_ H2].
    destruct (IH s2 H1 H2 H) as [-> ->]. split; reflexivity.
Qed.

Lemma accountId_inj_both (c1 c2 : Z) (a1 a2 : string) :
  Indexer.accountId c1 a1 = Indexer.accountId c2 a2 -> c1 = c2 /\ a1 = a2.
Proof.
  intros H.
  change (Str.toString c1 +:+ String "_"%char a1
          = Str.toString c2 +:+ String "_"%char a2) in H.
  apply split_underscore in H as [Hc Ha]; try apply toString_noUnderscore.
  split; [apply toString_inj, Hc | exact Ha].
Qed.

(** ** The ledger, account by account *)

Section AccountSides.
Import Indexer.

Lemma debitAccount_at (event : Event.t) (x : string) (v : Z) (table : gmap string Account.t) :
  let id := accountId (Event.chainId event) x in
  balanceAt (debitAccount event x v table) id = balanceAt table id - v
  /\ countAt (debitAccount event x v table) id = countAt table id + 1
  /\ debitAccount event x v table !! id <> None.
Proof.
  cbv zeta. unfold balanceAt, countAt, debitAccount. rewrite lookup_insert_eq.
  repeat split. discriminate.
Qed.

Lemma creditAccount_at (event : Event.t) (x : string) (v : Z) (table : gmap string Account.t) :
  let id := accountId (Event.chainId event) x in
  balanceAt (creditAccount event x v table) id = balanceAt table id + v
  /\ countAt (creditAccount event x v table) id = countAt table id + 1
  /\ creditAccount event x v table !! id <> None.
Proof.
  cbv zeta. unfold balanceAt, countAt, creditAccount. rewrite lookup_insert_eq.
  repeat split. discriminate.
Qed.

Lemma debitAccount_other (event : Event.t) (x : string) (v : Z)
    (table : gmap string Account.t) (id : string) :
  id <> accountId (Event.chainId event) x ->
  debitAccount event x v table !! id = table !! id.
Proof.
  intros H. unfold debitAccount. apply lookup_insert_ne. congruence.
Qed.

Lemma creditAccount_other (event : Event.t) (x : string) (v : Z)
    (table : gmap string Account.t) (id : string) :
  id <> accountId (Event.chainId event) x ->
  creditAccount event x v table !! id = table !! id.
Proof.
  intros H. unfold creditAccount. apply lookup_insert_ne. congruence.
Qed.

(** Whether a side of an event is the account [a] on chain [c]. *)
Lemma side_is (event : Event.t) (x : string) (c : Z) (a : string) :
  (Event.chainId event =? c) && String.eqb x a = true
  <-> accountId c a = accountId (Event.chainId event) x.
Proof.
  rewrite andb_true_iff, Z.eqb_eq, String.eqb_eq. split.
  - intros [-> ->]. reflexivity.
  - intros H. apply accountId_inj_both in H as [-> ->]. split; reflexivity.
Qed.

(** One run of the handler, seen from the row of account [a] on chain [c]. *)
Lemma handler_at (context : Context) (event : Event.t) (c : Z) (a : string) :
  a <> ZERO_ADDRESS ->
  let id := accountId c a in
  let isFrom := (Event.chainId event =? c)
                && String.eqb (Str.toLowerCase (Event.params_from event)) a in
  let isTo := (Event.chainId event =? c)
              && String.eqb (Str.toLowerCase (Event.params_to event)) a in
  let v := Event.params_value event in
  balanceAt (accounts (handler context event)) id
  = balanceAt (accounts context) id + (if isTo then v else 0) - (if isFrom then v else 0)
  /\ countAt (accounts (handler context event)) id
     = countAt (accounts context) id + (if isFrom then 1 else 0) + (if isTo then 1 else 0)
  /\ (accounts (handler context event) !! id = None
      <-> accounts context !! id = None /\ isFrom = false /\ isTo = false).
Proof.
  intros Ha. cbv zeta. unfold handler. cbn [accounts].
  set (f := Str.toLowerCase (Event.params_from event)).
  set (g := Str.toLowerCase (Event.params_to event)).
  set (v := Event.params_value event).
  set (t0 := accounts context).
  set (t1 := if negb (String.eqb f ZERO_ADDRESS) then debitAccount event f v t0 else t0).
  assert (H1 : balanceAt t1 (accountId c a)
               = balanceAt t0 (accountId c a)
                 - (if (Event.chainId event =? c) && String.eqb f a then v else 0)
               /\ countAt t1 (accountId c a)
                  = countAt t0 (accountId c a)
                    + (if (Event.chainId event =? c) && String.eqb f a then 1 else 0)
               /\ (t1 !! accountId c a = None
                   <-> t0 !! accountId c a = None
                       /\ (Event.chainId event =? c) && String.eqb f a = false)).
  { unfold t1. destruct ((Event.chainId event =? c) && String.eqb f a) eqn:E.
    - pose proof (proj1 (side_is event f c a) E) as Hid.
      apply andb_true_iff in E as [_ E]. apply String.eqb_eq in E.
      assert (Hz : String.eqb f ZERO_ADDRESS = false) by (apply String.eqb_neq; congruence).
      rewrite Hz, Hid. cbn [negb].
      destruct (debitAccount_at event f v t0) as (Hb & Hc & Hn).
      split; [exact Hb | split; [exact Hc|]].
      split; [intros H; contradiction | intros [_ H]; discriminate].
    - assert (Hid : accountId c a <> accountId (Event.chainId event) f).
      { intros H. apply side_is in H. congruence. }
      unfold balanceAt, countAt.
      destruct (negb (String.eqb f ZERO_ADDRESS));
        rewrite ?debitAccount_other by exact Hid;
        (split; [lia | split; [lia | tauto]]). }
  destruct H1 as (Hb1 & Hc1 & Hn1).
  destruct ((Event.chainId event =? c) && String.eqb g a) eqn:E.
  - pose proof (proj1 (side_is event g c a) E) as Hid.
    apply andb_true_iff in E as [_ E]. apply String.eqb_eq in E.
    assert (Hz : String.eqb g ZERO_ADDRESS = false) by (apply String.eqb_neq; congruence).
    rewrite Hz, Hid. cbn [negb].
    destruct (creditAccount_at event g v t1) as (Hb & Hc & Hn).
    rewrite <- Hid in Hb, Hc, Hn |- *. rewrite Hb, Hc, Hb1, Hc1.
    split; [lia | split; [lia|]].
    split; [intros H; contradiction | intros (_ & _ & H); discriminate].
  - assert (Hid : accountId c a <> accountId (Event.chainId event) g).
    { intros H. apply side_is in H. congruence. }
    assert (Hsame : (if negb (String.eqb g ZERO_ADDRESS)
                     then creditAccount event g v t1 else t1) !! accountId c a
                    = t1 !! accountId c a).
    { destruct (negb (String.eqb g ZERO_ADDRESS)); [|reflexivity].
      apply creditAccount_other, Hid. }
    unfold balanceAt, countAt in *. rewrite Hsame, Hb1, Hc1.
    split; [lia | split; [lia|]]. rewrite Hn1. tauto.
Qed.

Lemma sumEventValues_cons (e : Event.t) (events : list Event.t) :
  sumEventValues (e :: events) = Event.params_value e + sumEventValues events.
Proof. reflexivity. Qed.

Lemma fold_handler_at (events : list Event.t) (context : Context) (c : Z) (a : string) :
  a <> ZERO_ADDRESS ->
  let id := accountId c a in
  let after := accounts (fold_left handler events context) in
  balanceAt after id
  = balanceAt (accounts context) id
    + sumEventValues (creditedTo c a events) - sumEventValues (debitedFrom c a events)
  /\ countAt after id
     = countAt (accounts context) id
       + Z.of_nat (length (creditedTo c a events) + length (debitedFrom c a events))
  /\ (after !! id = None
      <-> accounts context !! id = None
          /\ creditedTo c a events = [] /\ debitedFrom c a events = []).
Proof.
  intros Ha. cbv zeta. revert context.
  induction events as [|ev events IH]; intros context.
  - cbn [fold_left creditedTo debitedFrom filter sumEventValues fold_right length Nat.add].
    change (Z.of_nat 0) with 0. split; [lia | split; [lia | tauto]].
  - cbn [fold_left]. destruct (IH (handler context ev)) as (Hb & Hc & Hn).
    destruct (handler_at context ev c a Ha) as (Sb & Sc & Sn).
    rewrite Hb, Hc, Hn, Sb, Sc, Sn. unfold creditedTo, debitedFrom. cbn [filter].
    destruct ((Event.chainId ev =? c)
              && String.eqb (Str.toLowerCase (Event.params_to ev)) a);
      destruct ((Event.chainId ev =? c)
                && String.eqb (Str.toLowerCase (Event.params_from ev)) a);
      rewrite ?sumEventValues_cons; cbn [length];
      (split; [lia | split; [lia|]]);
      intuition (try discriminate; auto).
Qed.

Lemma fold_handler_zero_row (events : list Event.t) (context : Context) (c : Z) :
  accounts context !! accountId c ZERO_ADDRESS = None ->
  accounts (fold_left handler events context) !! accountId c ZERO_ADDRESS = None.
Proof.
  revert context. induction events as [|ev events IH]; intros context H;
    cbn [fold_left]; [exact H|].
  apply IH. unfold handler. cbn [accounts].
  set (f := Str.toLowerCase (Event.params_from ev)).
  set (g := Str.toLowerCase (Event.params_to ev)).
  assert (H1 : (if negb (String.eqb f ZERO_ADDRESS)
                then debitAccount ev f (Event.params_value ev) (accounts context)
                else accounts context) !! accountId c ZERO_ADDRESS = None).
  { destruct (String.eqb f ZERO_ADDRESS) eqn:E; cbn [negb]; [exact H|].
    rewrite debitAccount_other; [exact H|].
    intros Hid. apply accountId_inj_both in Hid as [_ Hid].
    apply String.eqb_neq in E. congruence. }
  destruct (String.eqb g ZERO_ADDRESS) eqn:E; cbn [negb]; [exact H1|].
  rewrite creditAccount_other; [exact H1|].
  intros Hid. apply accountId_inj_both in Hid as [_ Hid].
  apply String.eqb_neq in E. congruence.
Qed.

End AccountSides.

(** X11. After any log of events, handled from empty tables, the row of an
    account (an address other than the zero address, on one chain) holds as
    balance the values it received on that chain minus the values it sent
    there, and as transfer count the number of event sides it took (a
    transfer to itself counts twice); it has no row exactly when no event
    of that chain names it; and no row is ever stored under the id of the
    zero address. *)
Theorem ledger_row_is_net_of_events :
  forall (events : list Indexer.Event.t) (c : Z) (a : string),
    let ledger := Indexer.index events in
    (a <> Indexer.ZERO_ADDRESS ->
     ledgerBalance ledger c a
     = sumEventValues (creditedTo c a events) - sumEventValues (debitedFrom c a events)
     /\ ledgerCount ledger c a
        = Z.of_nat (length (creditedTo c a events) + length (debitedFrom c a events))
     /\ (Indexer.accounts ledger !! Indexer.accountId c a = None
         <-> creditedTo c a events = [] /\ debitedFrom c a events = []))
    /\ Indexer.accounts ledger !! Indexer.accountId c Indexer.ZERO_ADDRESS = None.
Proof.
  intros events c a ledger. split.
  - intros Ha.
    destruct (fold_handler_at events (Indexer.mkContext ∅ ∅) c a Ha) as (Hb & Hc & Hn).
    unfold balanceAt, countAt in Hb, Hc. cbn [Indexer.accounts] in Hb, Hc, Hn.
    rewrite lookup_empty in Hb, Hc, Hn. cbn in Hb, Hc.
    unfold ledgerBalance, ledgerCount, ledger, Indexer.index.
    split; [rewrite Hb; lia | split; [rewrite Hc; lia|]].
    rewrite Hn. tauto.
  - apply fold_handler_zero_row. cbn [Indexer.accounts]. apply lookup_empty.
Qed.

Lemma ledger_row_is_net_of_events_witness :
  ledgerBalance
    (Indexer.index
       [Indexer.Event.mk 100 7 1700000000 "0xfeed" 0
          "0x0000000000000000000000000000000000000000" "0xBB" 50;
        Indexer.Event.mk 100 8 1700000005 "0xbeef" 1 "0xbb" "0xCC" 20])
    100 "0xbb"
  = sumEventValues
      (creditedTo 100 "0xbb"
         [Indexer.Event.mk 100 7 1700000000 "0xfeed" 0
            "0x0000000000000000000000000000000000000000" "0xBB" 50;
          Indexer.Event.mk 100 8 1700000005 "0xbeef" 1 "0xbb" "0xCC" 20])
    - sumEventValues
        (debitedFrom 100 "0xbb"
           [Indexer.Event.mk 100 7 1700000000 "0xfeed" 0
              "0x0000000000000000000000000000000000000000" "0xBB" 50;
            Indexer.Event.mk 100 8 1700000005 "0xbeef" 1 "0xbb" "0xCC" 20]).
Proof.
  refine (proj1 (proj1 (ledger_row_is_net_of_events
            [Indexer.Event.mk 100 7 1700000000 "0xfeed" 0
               "0x0000000000000000000000000000000000000000" "0xBB" 50;
             Indexer.Event.mk 100 8 1700000005 "0xbeef" 1 "0xbb" "0xCC" 20]
            100 "0xbb") _)).
  discriminate.
Defined.

(** ** What one run of the handler touches *)

Lemma transferIdOf_inj (e1 e2 : Indexer.Event.t) :
  transferIdOf e1 = transferIdOf e2 ->
  Indexer.Event.chainId e1 = Indexer.Event.chainId e2
  /\ Indexer.Event.block_number e1 = Indexer.Event.block_number e2
  /\ Indexer.Event.logIndex e1 = Indexer.Event.logIndex e2.
Proof.
  intros H.
  change (Str.toString (Indexer.Event.chainId e1)
            +:+ String "_"%char
                  (Str.toString (Indexer.Event.block_number e1)
                     +:+ String "_"%char (Str.toString (Indexer.Event.logIndex e1)))
          = Str.toString (Indexer.Event.chainId e2)
              +:+ String "_"%char
                    (Str.toString (Indexer.Event.block_number e2)
                       +:+ String "_"%char (Str.toString (Indexer.Event.logIndex e2)))) in H.
  apply split_underscore in H as [Hc H]; try apply toString_noUnderscore.
  apply split_underscore in H as [Hb Hl]; try apply toString_noUnderscore.
  repeat split; apply toString_inj; assumption.
Qed.

(** X12. One run of the handler stores the event in the Transfer table
    under its id, with lowercase parties, whether or not a side is the zero
    address, and leaves every other Transfer row as it was; two events have
    the same id only if they agree on chain, block number and log index. Of
    the Account table it changes at most the rows of the sender and of the
    receiver on the chain of the event, and every row it writes is keyed by
    that chain and its address and stamped with the block of the event. *)
Theorem handler_footprint :
  forall (context : Indexer.Context) (event : Indexer.Event.t),
    let context' := Indexer.handler context event in
    let chainId := Indexer.Event.chainId event in
    let fromAddr := Str.toLowerCase (Indexer.Event.params_from event) in
    let toAddr := Str.toLowerCase (Indexer.Event.params_to event) in
    Indexer.transfers context' !! transferIdOf event = Some (transferOf event)
    /\ (forall id, id <> transferIdOf event ->
                   Indexer.transfers context' !! id = Indexer.transfers context !! id)
    /\ (forall other, transferIdOf other = transferIdOf event ->
                      Indexer.Event.chainId other = chainId
                      /\ Indexer.Event.block_number other = Indexer.Event.block_number event
                      /\ Indexer.Event.logIndex other = Indexer.Event.logIndex event)
    /\ (forall id, id <> Indexer.accountId chainId fromAddr ->
                   id <> Indexer.accountId chainId toAddr ->
                   Indexer.accounts context' !! id = Indexer.accounts context !! id)
    /\ (forall id row,
           Indexer.accounts context' !! id = Some row ->
           Indexer.accounts context !! id <> Some row ->
           writtenBy event id row).
Proof.
  intros context event context' chainId fromAddr toAddr.
  unfold context', Indexer.handler. cbn [Indexer.transfers Indexer.accounts].
  fold fromAddr toAddr chainId.
  split; [apply lookup_insert_eq|].
  split; [intros id Hid; apply lookup_insert_ne; exact (not_eq_sym Hid)|].
  split; [intros other; apply transferIdOf_inj|].
  set (t0 := Indexer.accounts context).
  set (t1 := if negb (String.eqb fromAddr Indexer.ZERO_ADDRESS)
             then Indexer.debitAccount event fromAddr (Indexer.Event.params_value event) t0
             else t0).
  split.
  - intros id Hf Ht.
    assert (H1 : t1 !! id = t0 !! id).
    { unfold t1. destruct (negb (String.eqb fromAddr Indexer.ZERO_ADDRESS)); [|reflexivity].
      apply debitAccount_other, Hf. }
    destruct (negb (String.eqb toAddr Indexer.ZERO_ADDRESS)); [|exact H1].
    rewrite creditAccount_other by exact Ht. exact H1.
  - intros id row Hrow Hold.
    assert (H1 : forall r, t1 !! id = Some r -> t0 !! id <> Some r -> writtenBy event id r).
    { intros r Hr Hne. unfold t1 in Hr.
      destruct (negb (String.eqb fromAddr Indexer.ZERO_ADDRESS)); [|contradiction].
      unfold Indexer.debitAccount in Hr. apply lookup_insert_Some in Hr as [[<- <-]|[_ Hr]].
      - unfold writtenBy. cbn. repeat split.
      - contradiction. }
    destruct (negb (String.eqb toAddr Indexer.ZERO_ADDRESS)); [|apply H1; assumption].
    unfold Indexer.creditAccount in Hrow.
    apply lookup_insert_Some in Hrow as [[<- <-]|[_ Hrow]].
    + unfold writtenBy. cbn. repeat split.
    + apply H1; assumption.
Qed.

Lemma handler_footprint_witness :
  Indexer.accounts
    (Indexer.handler (Indexer.mkContext ∅ ∅)
       (Indexer.Event.mk 100 7 1700000000 "0xfeed" 0 "0xAA" "0xBB" 5)) !! "1_0xaa"
  = Indexer.accounts (Indexer.mkContext ∅ ∅) !! "1_0xaa".
Proof.
  refine (proj1 (proj2 (proj2 (proj2 (handler_footprint (Indexer.mkContext ∅ ∅)
            (Indexer.Event.mk 100 7 1700000000 "0xfeed" 0 "0xAA" "0xBB" 5)))))
            "1_0xaa" _ _).
  - vm_compute. discriminate.
  - vm_compute. discriminate.
Defined.

(** ** Canonical addresses and chain names *)

Lemma fold_windowStep_keys_lower cutoff ts flows :
  (forall k, In k (JSMap.keys flows) -> Str.toLowerCase k = k) ->
  forall k, In k (JSMap.keys (fold_left (windowStep cutoff) ts flows)) ->
            Str.toLowerCase k = k.
Proof.
  revert flows. induction ts as [|t ts IH]; intros flows H k Hk; cbn [fold_left] in Hk.
  - apply H, Hk.
  - eapply IH; [|exact Hk]. clear k Hk. intros k Hk.
    apply windowStep_keys in Hk as [Hk|(_ & _ & [->| ->])];
      [apply H, Hk | apply toLowerCase_idem..].
Qed.

(** X13. Every address of the flow rankings and of the top-holder ranking
    is in lowercase form, whatever the case of the addresses in the rows
    read from the store. *)
Theorem ranked_addresses_lowercase :
  (forall (now : Z) (allTransfers : list TransferRow.t) (row : FlowRow.t),
      In row (buildTop (flows7d (computeFlows now allTransfers)))
      \/ In row (buildTop (flows30d (computeFlows now allTransfers))) ->
      Str.toLowerCase (FlowRow.address row) = FlowRow.address row)
  /\ (forall (pages : list (list AccountRow.t)) (row : HolderRow.t),
         In row (rankHolders (mergeHolderPages pages)) ->
         Str.toLowerCase (HolderRow.address row) = HolderRow.address row).
Proof.
  split.
  - intros now ts row. unfold computeFlows. rewrite computeFlows_fold.
    cbn [flows7d flows30d].
    assert (H : forall cutoff,
               In row (buildTop (fold_left (windowStep cutoff) ts [])) ->
               Str.toLowerCase (FlowRow.address row) = FlowRow.address row).
    { intros cutoff Hin.
      apply (fold_windowStep_keys_lower cutoff ts []); [intros k []|].
      apply (in_map FlowRow.address) in Hin. rewrite buildTop_addresses in Hin.
      unfold JSMap.keys in *. apply in_map_iff in Hin as (p & Hp & Hin).
      apply in_map_iff. exists p. split; [exact Hp | apply topFlows_incl, Hin]. }
    intros [Hin|Hin]; eapply H; exact Hin.
  - intros pages row Hin.
    apply (in_map HolderRow.address), rankHolders_addresses in Hin.
    unfold mergeHolderPages in Hin. rewrite mergeHolderPages_concat in Hin.
    apply mergeHolderPage_keys in Hin as [[]|(acct & _ & ->)].
    apply toLowerCase_idem.
Qed.

Lemma ranked_addresses_lowercase_witness :
  Str.toLowerCase "0xaa" = "0xaa".
Proof.
  refine (proj2 ranked_addresses_lowercase
            [[AccountRow.mk "0xAA" 100 30 2]]
            (HolderRow.mk "0xaa" "0.00000000000000003" 2 ["gnosis"]) _).
  left. vm_compute. reflexivity.
Defined.

(** X14. Different chain ids never share a chain name: the two named chains
    and the fallback names are pairwise different, so the chains set of an
    entry has one name per chain id seen. *)
Theorem chainName_injective :
  forall c1 c2 : Z, chainName c1 = chainName c2 -> c1 = c2.
Proof.
  intros c1 c2. unfold chainName, CHAIN_NAMES.
  destruct (c1 =? 1) eqn:A1; [apply Z.eqb_eq in A1|];
    destruct (c2 =? 1) eqn:B1; try apply Z.eqb_eq in B1;
    try (destruct (c1 =? 100) eqn:A2; [apply Z.eqb_eq in A2|]);
    try (destruct (c2 =? 100) eqn:B2; [apply Z.eqb_eq in B2|]);
    cbn [orString Str.truthy]; intros H; try lia;
    try (change ("chain_" +:+ ?x) with (String "c"%char ("hain_" +:+ x)) in H; discriminate H).
  apply (inj (String.app "chain_")) in H. apply toString_inj, H.
Qed.

Lemma chainName_injective_witness : 100 = 100.
Proof. refine (chainName_injective 100 100 _). reflexivity. Defined.

(** ** Runs stop at the first failed request *)











(** ** The amounts of the document *)

Lemma balanceOrZero_sum (rows : list AccountRow.t) (a : string) :
  balanceOrZero (mergeBalancePage [] rows) a = sumBalance (rowsOf a rows).
Proof.
  unfold balanceOrZero. rewrite mergeBalancePage_get.
  destruct (rowsOf a rows) as [|r rs]; [reflexivity|].
  cbn [JSMap.get default]. unfold id. rewrite Z.add_0_l.
  destruct (sumBalance (r :: rs) =? 0) eqn:E; [|reflexivity].
  apply Z.eqb_eq in E. symmetry. exact E.
Qed.

Lemma balancesFrom_one_batch (fuel : nat) (s : Store.t) (addresses : list string) :
  (0 < length addresses <= 500)%nat ->
  balancesFrom (S (S fuel)) s addresses 0 []
  = mergeBalancePage [] (Store.accountsIn s addresses).
Proof.
  intros Hlen. cbn [balancesFrom].
  assert (H0 : (0 <? Z.of_nat (length addresses)) = true) by (apply Z.ltb_lt; lia).
  assert (H500 : (0 + 500 <? Z.of_nat (length addresses)) = false) by (apply Z.ltb_ge; lia).
  rewrite H0, H500.
  assert (Hslice : slice 0 (0 + 500) addresses = addresses).
  { unfold slice. change (Z.to_nat 0) with 0%nat. rewrite skipn_O.
    apply firstn_all2. lia. }
  rewrite Hslice. reflexivity.
Qed.

Lemma askedAddresses_length (w : World) : (length (askedAddresses w) <= 100)%nat.
Proof.
  unfold askedAddresses, rankedAddresses.
  set (flows := computeFlows _ _).
  pose proof (rankedAdd_length (buildTop (flows30d flows))
                (fold_left (fun s r => JSSet.add s (FlowRow.address r))
                   (buildTop (flows7d flows)) [])) as H1.
  pose proof (rankedAdd_length (buildTop (flows7d flows)) []) as H2.
  rewrite !buildTop_length in *. cbn [length] in H2. lia.
Qed.

(** X16. In the document of a successful run no ranking has more than 50
    rows, and the balance of every flow row is the rendering of the sum of
    the balances of the Account rows the store returned for that address in
    the one balance query of the run, whose address list holds the address
    of the row. *)
Theorem document_balances_are_row_sums :
  forall (w w' : World) (fuel : nat) (summary : Summary.t),
    (enoughFuel w <= fuel)%nat ->
    run fuel w = Some (0, w') ->
    document w' = Some summary ->
    ((length (Summary.top_7d summary) <= 50)%nat
     /\ (length (Summary.top_30d summary) <= 50)%nat
     /\ (length (Summary.top_holders summary) <= 50)%nat)
    /\ (forall row,
           In row (Summary.top_7d summary) \/ In row (Summary.top_30d summary) ->
           In (SummaryRow.address row) (askedAddresses w)
           /\ SummaryRow.balance row
              = bigintToDecimalString
                  (sumBalance
                     (rowsOf (SummaryRow.address row)
                        (Store.accountsIn (store w) (askedAddresses w))))).
Proof.
  intros w w' fuel summary Hfuel Hrun Hdoc.
  destruct (run_spec w fuel Hfuel) as (code & w1 & Hrun1 & H).
  rewrite Hrun in Hrun1. injection Hrun1 as <- <-.
  destruct H as [(_ & _ & Hd)|(Hc & _)]; [|discriminate Hc].
  rewrite Hdoc in Hd. injection Hd as ->.
  unfold expectedSummary. cbn [Summary.top_7d Summary.top_30d Summary.top_holders].
  fold (askedAddresses w).
  set (now := dateNow w / 1000).
  set (flows := computeFlows now (Store.transfersSince (store w) (cutoff30d now))).
  split.
  - unfold addBalances, rankHolders. rewrite !length_map, !buildTop_length, length_firstn.
    unfold TOP_N. lia.
  - intros row Hin.
    assert (Hasked : In (SummaryRow.address row) (askedAddresses w)).
    { unfold askedAddresses, rankedAddresses. fold now flows.
      apply rankedAdd_In. rewrite rankedAdd_In. cbn [In].
      rewrite <- !(addBalances_addresses
                     (balancesFrom fuel (store w) (askedAddresses w) 0 [])).
      destruct Hin as [Hin|Hin]; [left; right | right];
        apply (in_map SummaryRow.address), Hin. }
    split; [exact Hasked|].
    assert (Hlen : (0 < length (askedAddresses w) <= 500)%nat).
    { pose proof (askedAddresses_length w).
      destruct (askedAddresses w); [destruct Hasked | cbn [length] in *; lia]. }
    assert (Hf : exists f, fuel = S (S f)).
    { unfold enoughFuel in Hfuel. fold now flows in Hfuel.
      unfold askedAddresses in Hlen. fold now flows in Hlen.
      exists (fuel - 2)%nat. lia. }
    destruct Hf as [f ->].
    rewrite balancesFrom_one_batch in Hin by exact Hlen.
    unfold addBalances in Hin.
    destruct Hin as [Hin|Hin]; apply in_map_iff in Hin as (r & <- & _);
      cbn [SummaryRow.balance SummaryRow.address];
      rewrite balanceOrZero_sum; reflexivity.
Qed.

Lemma document_balances_are_row_sums_witness :
  (length (Summary.top_7d (expectedSummary 10 sampleWorld)) <= 50)%nat
  /\ (length (Summary.top_30d (expectedSummary 10 sampleWorld)) <= 50)%nat
  /\ (length (Summary.top_holders (expectedSummary 10 sampleWorld)) <= 50)%nat.
Proof.
  refine (proj1 (document_balances_are_row_sums sampleWorld
            (mkWorld (store sampleWorld) (faults sampleWorld) 4 (dateNow sampleWorld)
               (isoString sampleWorld) (labelsFile sampleWorld)
               (Some (expectedSummary 10 sampleWorld)))
            10 (expectedSummary 10 sampleWorld) _ _ _)).
  - vm_compute. lia.
  - vm_compute. reflexivity.
  - reflexivity.
Defined.

(** X17. The rendering of a negative amount is the rendering of its
    absolute value with a minus sign in front. *)
Theorem bigintToDecimalString_negative :
  forall raw : Z,
    0 < raw -> bigintToDecimalString (- raw) = "-" +:+ bigintToDecimalString raw.
Proof.
  intros raw Hpos. unfold bigintToDecimalString.
  assert (Hn : (- raw <? 0) = true) by (apply Z.ltb_lt; lia).
  assert (Hp : (raw <? 0) = false) by (apply Z.ltb_ge; lia).
  rewrite Hn, Hp, Z.opp_involutive.
  destruct (Z.rem raw DECIMALS_DIVISOR =? 0); rewrite !str_app_nil_l; reflexivity.
Qed.

Lemma bigintToDecimalString_negative_witness :
  bigintToDecimalString (- 250000000000000000)
  = "-" +:+ bigintToDecimalString 250000000000000000.
Proof.
  refine (bigintToDecimalString_negative 250000000000000000 _). lia.
Defined.

(** X18. The amounts of a flow row agree with each other: read back, the
    net flow is the inflow minus the outflow; and a ranked address took part
    in at least one transfer. *)
Theorem flow_row_amounts_consistent :
  forall (now : Z) (allTransfers : list TransferRow.t) (row : FlowRow.t),
    In row (buildTop (flows7d (computeFlows now allTransfers)))
    \/ In row (buildTop (flows30d (computeFlows now allTransfers))) ->
    fromDecimalString (FlowRow.net_flow row)
    = fromDecimalString (FlowRow.inflow row) - fromDecimalString (FlowRow.outflow row)
    /\ 1 <= FlowRow.transfer_count row.
Proof.
  intros now ts row. unfold computeFlows. rewrite computeFlows_fold.
  cbn [flows7d flows30d].
  assert (H : forall cutoff,
             In row (buildTop (fold_left (windowStep cutoff) ts [])) ->
             fromDecimalString (FlowRow.net_flow row)
             = fromDecimalString (FlowRow.inflow row)
               - fromDecimalString (FlowRow.outflow row)
             /\ 1 <= FlowRow.transfer_count row).
  { intros cutoff Hin. unfold buildTop in Hin.
    apply in_map_iff in Hin as ([a e] & <- & Hin). apply topFlows_incl in Hin.
    cbn [flowRow FlowRow.net_flow FlowRow.inflow FlowRow.outflow FlowRow.transfer_count].
    rewrite !fromDecimalString_rendered. split; [reflexivity|].
    assert (Hok : Forall flowEntryOk (fold_left (windowStep cutoff) ts []))
      by (apply fold_windowStep_ok; constructor).
    rewrite Forall_forall in Hok. apply Hok in Hin as [_ Hc]. cbn in Hc. lia. }
  intros [Hin|Hin]; eapply H; exact Hin.
Qed.

Lemma flow_row_amounts_consistent_witness :
  fromDecimalString "-0.0000000000000001"
  = fromDecimalString "0" - fromDecimalString "0.0000000000000001"
  /\ 1 <= 1.
Proof.
  refine (flow_row_amounts_consistent 3000000
            [TransferRow.mk 100 2999000 "0xA" "0xB" 100]
            (FlowRow.mk "0xa" "0" "0.0000000000000001" "-0.0000000000000001" 1 ["gnosis"])
            _).
  left. vm_compute. left. reflexivity.
Defined.

(** ** The order of the retrieved transfers *)

Lemma filter_perm {A : Type} (p : A -> bool) (l l' : list A) :
  Permutation l l' -> Permutation (filter p l) (filter p l').
Proof.
  induction 1 as [|x l l' _ IH|x y l|l l' l'' _ IH1 _ IH2]; cbn [filter].
  - constructor.
  - destruct (p x); [constructor|]; exact IH.
  - destruct (p x), (p y); try reflexivity. apply perm_swap.
  - etransitivity; eassumption.
Qed.

Lemma sumValues_perm (ts ts' : list TransferRow.t) :
  Permutation ts ts' -> sumValues ts = sumValues ts'.
Proof.
  induction 1 as [|x l l' _ IH|x y l|l l' l'' _ IH1 _ IH2];
    rewrite ?sumValues_cons; lia.
Qed.

(** X19. The totals of the flow maps do not depend on the order in which the
    store returns the transfers: for two lists with the same transfers, each
    address has in each window the same inflow, outflow and count, and has an
    entry in the one map exactly when it has one in the other. *)
Theorem flow_totals_order_independent :
  forall (now : Z) (ts ts' : list TransferRow.t) (a : string),
    Permutation ts ts' ->
    let same (m m' : JSMap FlowEntry.t) :=
      FlowEntry.inflow (entryOf m a) = FlowEntry.inflow (entryOf m' a)
      /\ FlowEntry.outflow (entryOf m a) = FlowEntry.outflow (entryOf m' a)
      /\ FlowEntry.count (entryOf m a) = FlowEntry.count (entryOf m' a)
      /\ (JSMap.get m a = None <-> JSMap.get m' a = None) in
    same (flows30d (computeFlows now ts)) (flows30d (computeFlows now ts'))
    /\ same (flows7d (computeFlows now ts)) (flows7d (computeFlows now ts')).
Proof.
  intros now ts ts' a Hp. cbv zeta. unfold computeFlows. rewrite !computeFlows_fold.
  cbn [flows30d flows7d].
  assert (H : forall cutoff,
             let m := fold_left (windowStep cutoff) ts [] in
             let m' := fold_left (windowStep cutoff) ts' [] in
             FlowEntry.inflow (entryOf m a) = FlowEntry.inflow (entryOf m' a)
             /\ FlowEntry.outflow (entryOf m a) = FlowEntry.outflow (entryOf m' a)
             /\ FlowEntry.count (entryOf m a) = FlowEntry.count (entryOf m' a)
             /\ (JSMap.get m a = None <-> JSMap.get m' a = None)).
  { intros cutoff. cbv zeta. destruct (tracked a) eqn:Ht.
    - destruct (windowTotals_fold cutoff ts a Ht) as (I1 & O1 & C1 & N1).
      destruct (windowTotals_fold cutoff ts' a Ht) as (I2 & O2 & C2 & N2).
      assert (Pr : Permutation (receivedBy cutoff a ts) (receivedBy cutoff a ts'))
        by (apply filter_perm, Hp).
      assert (Ps : Permutation (sentBy cutoff a ts) (sentBy cutoff a ts'))
        by (apply filter_perm, Hp).
      rewrite I1, I2, O1, O2, C1, C2, N1, N2.
      rewrite (sumValues_perm _ _ Pr), (sumValues_perm _ _ Ps),
        (Permutation_length Pr), (Permutation_length Ps).
      split; [reflexivity | split; [reflexivity | split; [reflexivity|]]].
      split; intros [Hr Hs].
      + rewrite Hr in Pr. rewrite Hs in Ps.
        apply Permutation_nil in Pr, Ps. split; assumption.
      + rewrite Hr in Pr. rewrite Hs in Ps.
        symmetry in Pr, Ps. apply Permutation_nil in Pr, Ps. split; assumption.
    - unfold entryOf. rewrite !untracked_no_entry by exact Ht.
      repeat split; reflexivity. }
  split; apply H.
Qed.

Lemma flow_totals_order_independent_witness :
  FlowEntry.inflow
    (entryOf (flows30d (computeFlows 3000000
       [TransferRow.mk 100 2999000 "0xA" "0xB" 100;
        TransferRow.mk 1 1300000 "0xc" "0xb" 40])) "0xb")
  = FlowEntry.inflow
      (entryOf (flows30d (computeFlows 3000000
         [TransferRow.mk 1 1300000 "0xc" "0xb" 40;
          TransferRow.mk 100 2999000 "0xA" "0xB" 100])) "0xb").
Proof.
  refine (proj1 (proj1 (flow_totals_order_independent 3000000
            [TransferRow.mk 100 2999000 "0xA" "0xB" 100;
             TransferRow.mk 1 1300000 "0xc" "0xb" 40]
            [TransferRow.mk 1 1300000 "0xc" "0xb" 40;
             TransferRow.mk 100 2999000 "0xA" "0xB" 100]
            "0xb" _))).
  apply perm_swap.
Defined.
